(** * Mention notifications of [ActivityService.createOne]

    A shallow embedding of [api/src/services/activity.ts]: the mention
    scanner, the comment renderer and the notification fan-out of
    [createOne], with the services it calls kept as collaborators whose
    calls are recorded in an event log. *)

From Stdlib Require Import Ascii String DecimalString.
From stdpp Require Import base list strings gmap.

Local Open Scope string_scope.
Local Open Scope list_scope.
Local Open Scope nat_scope.

(** ** JavaScript strings

    A JavaScript string is a sequence of code units; it is embedded as a
    [string].  Every pattern of the source is made of ASCII characters, so
    nothing here depends on the width of a code unit. *)

Module Js.

Fixpoint chars (s : string) : list ascii :=
  match s with
  | EmptyString => []
  | String c t => c :: chars t
  end.

(** [s.substring(n)] *)
Fixpoint substring_from (n : nat) (s : string) : string :=
  match n, s with
  | 0, _ => s
  | S k, String _ t => substring_from k t
  | S _, EmptyString => EmptyString
  end.

(** [s.startsWith(p)] *)
Fixpoint starts_with (p s : string) : bool :=
  match p, s with
  | EmptyString, _ => true
  | String a p', String b s' => if Ascii.eqb a b then starts_with p' s' else false
  | String _ _, EmptyString => false
  end.

End Js.

(** ** The mention pattern

    [/@[0-9A-F]{8}-[0-9A-F]{4}-4[0-9A-F]{3}-[89AB][0-9A-F]{3}-[0-9A-F]{12}/gi]
    is a concatenation of character classes, one per character of a match.
    Under the [i] flag a class of ASCII letters accepts both cases and no
    character outside ASCII. *)

Module Regex.

Definition CharClass : Type := ascii → bool.

Definition lit (a : ascii) : CharClass := fun c => Ascii.eqb c a.

Definition in_range (lo hi : ascii) : CharClass :=
  fun c => (nat_of_ascii lo <=? nat_of_ascii c) && (nat_of_ascii c <=? nat_of_ascii hi).

(** [[0-9A-F]] with the [i] flag *)
Definition hex_i : CharClass :=
  fun c => in_range "0" "9" c || in_range "A" "F" c || in_range "a" "f" c.

(** [[89AB]] with the [i] flag *)
Definition variant_i : CharClass :=
  fun c => lit "8" c || lit "9" c || lit "A" c || lit "B" c || lit "a" c || lit "b" c.

Definition usersRegExp : list CharClass :=
  lit "@" :: replicate 8 hex_i ++
  lit "-" :: replicate 4 hex_i ++
  lit "-" :: lit "4" :: replicate 3 hex_i ++
  lit "-" :: variant_i :: replicate 3 hex_i ++
  lit "-" :: replicate 12 hex_i.

(** One attempt to match at the start of [s]; the matched text. *)
Fixpoint exec_at (re : list CharClass) (s : string) : option string :=
  match re with
  | [] => Some EmptyString
  | cl :: re' =>
      match s with
      | String c t => if cl c then String c <$> exec_at re' t else None
      | EmptyString => None
      end
  end.

(** [s.match(re)] for a global [re]: the matches from left to right, the
    search resuming after the end of each match.  [skip] counts the
    characters of the last match that are still to be passed over. *)
Fixpoint match_all (re : list CharClass) (skip : nat) (s : string) : list string :=
  match s with
  | EmptyString => []
  | String _ t =>
      match skip with
      | S k => match_all re k t
      | 0 =>
          match exec_at re s with
          | Some m => m :: match_all re (String.length m - 1) t
          | None => match_all re 0 t
          end
      end
  end.

End Regex.

(** [uniq] of lodash: each value is appended to the result unless the
    result already holds it. *)
Fixpoint uniq_loop (result l : list string) : list string :=
  match l with
  | [] => result
  | x :: t =>
    if bool_decide (x ∈ result) then uniq_loop result t
    else uniq_loop (result ++ [x]) t
  end.

Definition uniq (l : list string) : list string := uniq_loop [] l.

(** [uniq(data['comment'].match(usersRegExp) ?? [])] *)
Definition mentions_of (comment : string) : list string :=
  uniq (Regex.match_all Regex.usersRegExp 0 comment).


(** ** Rendering of the quoted comment *)

(** [GetSubstitution] of ECMAScript for a pattern without capture groups:
    in the replacement text [$$] stands for a dollar sign, [$&] for the
    matched text, [$`] for the text before the match and [$'] for the text
    after it; any other [$] stands for itself. *)
Fixpoint GetSubstitution (matched before after template : string) : string :=
  match template with
  | EmptyString => EmptyString
  | String c t =>
      if Ascii.eqb c "$" then
        match t with
        | String d t' =>
            if Ascii.eqb d "$" then String "$" (GetSubstitution matched before after t')
            else if Ascii.eqb d "&" then matched +:+ GetSubstitution matched before after t'
            else if Ascii.eqb d "`" then before +:+ GetSubstitution matched before after t'
            else if Ascii.eqb d "'" then after +:+ GetSubstitution matched before after t'
            else String c (GetSubstitution matched before after t)
        | EmptyString => String c EmptyString
        end
      else String c (GetSubstitution matched before after t)
  end.

(** [s.replace(new RegExp(mention, 'gm'), template)].  A mention is made of
    ['@'], hexadecimal digits and ['-']; each of them stands for itself in a
    regular expression, and there is no [i] flag, so the expression matches
    the occurrences of the mention itself, from left to right and without
    overlap.  [before] is the part of the subject already passed. *)
Fixpoint replace_loop (mention template before : string) (skip : nat) (s : string) : string :=
  match s with
  | EmptyString => EmptyString
  | String c t =>
      match skip with
      | S k => replace_loop mention template (before +:+ String c EmptyString) k t
      | 0 =>
          if Js.starts_with mention s then
            GetSubstitution mention before
              (Js.substring_from (String.length mention) s) template
            +:+ replace_loop mention template (before +:+ String c EmptyString)
                  (String.length mention - 1) t
          else
            String c (replace_loop mention template (before +:+ String c EmptyString) 0 t)
      end
  end.

Definition replace_mention (mention template s : string) : string :=
  replace_loop mention template EmptyString 0 s.

Definition newline : ascii := "010"%char.

(** [s.replace(/\n+/gm, '\n> ')]: every maximal run of line feeds becomes
    one line feed and a quote marker.  [in_run] tells that the previous
    character was a line feed. *)
Fixpoint quote_breaks (in_run : bool) (s : string) : string :=
  match s with
  | EmptyString => EmptyString
  | String c t =>
      if Ascii.eqb c newline then
        if in_run then quote_breaks true t
        else String newline ("> " +:+ quote_breaks true t)
      else String c (quote_breaks false t)
  end.

(** [`> ${comment.replace(/\n+/gm, '\n> ')}`] *)
Definition quoted (comment : string) : string := "> " +:+ quote_breaks false comment.

(** The loop over the mentions, lines 77 to 82: a mention whose identifier
    fails [isValidUuid] is passed over, the others are replaced by their
    preview or by the placeholder. *)
Definition substitute_mentions (isValidUuid : string → bool)
    (userPreviews : gmap string string) (mentions : list string) (comment : string) : string :=
  foldl (fun comment mention =>
           let uuid := Js.substring_from 1 mention in
           if isValidUuid uuid then
             replace_mention mention (default "@Unknown User" (userPreviews !! uuid)) comment
           else comment)
        comment mentions.

Definition render_comment (isValidUuid : string → bool)
    (userPreviews : gmap string string) (mentions : list string) (comment : string) : string :=
  quoted (substitute_mentions isValidUuid userPreviews mentions comment).

(** ** Values and rows *)

(** The values a field of [data] holds in this development.  A number is
    carried as the text that [`${n}`] gives for it ([12], [1.5], [1e+21]):
    the code prints the numbers of [data] and hands them on, and compares
    none. *)
Inductive JsVal : Type :=
| JsUndefined
| JsNull
| JsBool (b : bool)
| JsNum (text : string)
| JsStr (s : string).

Global Instance JsVal_eq_dec : EqDecision JsVal.
Proof. solve_decision. Defined.

(** [`${v}`] *)
Definition template_string (v : JsVal) : string :=
  match v with
  | JsUndefined => "undefined"
  | JsNull => "null"
  | JsBool true => "true"
  | JsBool false => "false"
  | JsNum text => text
  | JsStr s => s
  end.

(** [Partial<Item>]: an object read by key; a missing key reads as
    [undefined]. *)
Abbreviation Item := (gmap string JsVal).

Definition field (data : Item) (key : string) : JsVal :=
  default JsUndefined (data !! key).

(** [Action.COMMENT] of [@directus/constants]. *)
Definition Action_COMMENT : JsVal := JsStr "comment".

Record Role : Type := {
  role_id : option string;
  admin_access : option bool;
  app_access : option bool
}.

(** A row of [directus_users] with the fields the queries ask for. *)
Record User : Type := {
  id : string;
  first_name : option string;
  last_name : option string;
  email : option string;
  role : option Role
}.

(** The payload of [notificationsService.createOne]. *)
Record Notification : Type := {
  recipient : string;
  sender : string;
  subject : string;
  message : string;
  collection : JsVal;
  item : JsVal
}.

(** What a collaborator throws.  [isDirectusError(err, ErrorCode.Forbidden)]
    holds of a Directus error whose code is [Forbidden] and of nothing
    else; [OtherCode] stands for the other members of [ErrorCode]. *)
Inductive ErrorCode : Type :=
| Forbidden
| OtherCode (name : string).

Inductive Thrown : Type :=
| DirectusError (code : ErrorCode)
| TypeError (what : string)
| OtherError (what : string).

Definition isDirectusError_Forbidden (err : Thrown) : bool :=
  match err with
  | DirectusError Forbidden => true
  | _ => false
  end.

Section Activity.

(** The permission rows and the mutation options are passed along and never
    inspected. *)
Context {Permission MutationOptions : Type}.

Record Accountability : Type := {
  acc_user : option string;
  acc_role : option string;
  acc_admin : option bool;
  acc_app : option bool;
  acc_permissions : option (list Permission)
}.

(** ** The event log

    One event per call of a collaborator, with its arguments and its
    outcome, in the order of the calls. *)
Inductive Event : Type :=
| UsersReadOne (svc : option Accountability) (key : option string)
    (fields : list string) (res : Thrown + User)
| GetPermissions (acc : Accountability) (res : Thrown + list Permission)
| CheckAccess (acc : Accountability) (action : string) (coll pk : JsVal)
    (res : Thrown + unit)
| UsersReadByQuery (svc : Accountability) (fields : list string)
    (id_in : list string) (res : Thrown + list User)
| NotificationsCreateOne (n : Notification) (res : Thrown + JsVal)
| LoggerWarn (msg : string)
| ItemsCreateOne (data : Item) (opts : option MutationOptions) (res : Thrown + JsVal).

(** The services behind [createOne].  Each answers from its arguments and
    from the events so far, which stand for the state of the database. *)
Record Collaborators : Type := {
  users_readOne :
    list Event → option Accountability → option string → list string → Thrown + User;
  getPermissions : list Event → Accountability → Thrown + list Permission;
  checkAccess :
    list Event → Accountability → string → JsVal → JsVal → Thrown + unit;
  users_readByQuery :
    list Event → Accountability → list string → list string → Thrown + list User;
  notifications_createOne : list Event → Notification → Thrown + JsVal;
  items_createOne : list Event → Item → option MutationOptions → Thrown + JsVal
}.

(** The pure utilities imported by the module: [userName], [isValidUuid] and
    the link built by [Url] from [PUBLIC_URL], the collection and the item. *)
Record Utils : Type := {
  userName : User → string;
  isValidUuid : string → bool;
  admin_content_href : JsVal → JsVal → string
}.

(** ** Computations

    A computation reads the events so far and returns the events it emits
    with its outcome: a value, or what was thrown. *)
Definition M (A : Type) : Type := list Event → list Event * (Thrown + A).

Global Instance M_ret : MRet M := fun A a _ => ([], inr a).

Global Instance M_bind : MBind M := fun A B f m h =>
  match m h with
  | (d, inl err) => (d, inl err)
  | (d, inr a) =>
      match f a (h ++ d) with
      | (d', r) => (d ++ d', r)
      end
  end.

Definition throw {A : Type} (err : Thrown) : M A := fun _ => ([], inl err).

(** A call of a collaborator: ask, record. *)
Definition call {A : Type} (ask : list Event → Thrown + A)
    (record : Thrown + A → Event) : M A :=
  fun h => let r := ask h in ([record r], r).

Definition logger_warn (msg : string) : M unit :=
  fun _ => ([LoggerWarn msg], inr tt).

(** [try { body } catch (err) { handler }] *)
Definition try_catch {A : Type} (body : M A) (handler : Thrown → M A) : M A :=
  fun h =>
    match body h with
    | (d, inl err) =>
        match handler err (h ++ d) with
        | (d', r) => (d ++ d', r)
        end
    | (d, inr a) => (d, inr a)
    end.

(** [for (const x of l) { body }] *)
Fixpoint for_of {A : Type} (l : list A) (body : A → M unit) : M unit :=
  match l with
  | [] => mret tt
  | x :: rest => body x ;; for_of rest body
  end.

(** ** [ActivityService] *)

Variable C : Collaborators.
Variable U : Utils.

(** The service: [this.accountability], as given to the constructor. *)
Record ActivityService : Type := {
  accountability : option Accountability
}.

Definition sender_fields : list string := ["id"; "first_name"; "last_name"; "email"].

Definition recipient_fields : list string :=
  ["id"; "first_name"; "last_name"; "email"; "role.id"; "role.admin_access"; "role.app_access"].

(** Lines 47 to 52. *)
Definition recipient_accountability (userID : string) (user : User)
    (permissions : option (list Permission)) : Accountability :=
  {| acc_user := Some userID;
     acc_role := r ← role user; role_id r;
     acc_admin := r ← role user; admin_access r;
     acc_app := r ← role user; app_access r;
     acc_permissions := permissions |}.

(** Lines 67 to 73. *)
Definition user_previews (templateData : list User) : gmap string string :=
  foldl (fun acc user => <[id user := "<em>" +:+ userName U user +:+ "</em>"]> acc)
        ∅ templateData.

Definition double_quote : string := String "034"%char EmptyString.

(** Lines 90 to 98. *)
Definition message_text (user sender : User) (comment href : string) : string :=
  String newline ("Olá " +:+ userName U user +:+ "," +:+
  String newline (String newline (userName U sender +:+
    " mencionou você em um comentário:" +:+
  String newline (String newline (comment +:+
  String newline (String newline ("<a href=" +:+ double_quote +:+ href +:+
    double_quote +:+ ">Clique aqui para ver.</a>" +:+
  String newline EmptyString))))))).

Definition warning_text (userID : string) : string :=
  "User " +:+ userID +:+
  " doesn't have proper permissions to receive notification for this item.".

Definition notification_for (data : Item) (comment : string) (mentions : list string)
    (sender user : User) (userID : string) (templateData : list User) : Notification :=
  {| recipient := userID;
     sender := id sender;
     subject := "Você foi mencionado em " +:+ template_string (field data "collection");
     message :=
       message_text user sender
         (render_comment (isValidUuid U) (user_previews templateData) mentions comment)
         (admin_content_href U (field data "collection") (field data "item"));
     collection := field data "collection";
     item := field data "item" |}.

(** The body of the [try], lines 60 to 107. *)
Definition try_notify (data : Item) (comment : string) (mentions : list string)
    (sender user : User) (userID : string) (acc : Accountability) : M unit :=
  call (fun h => checkAccess C h acc "read" (field data "collection") (field data "item"))
       (CheckAccess acc "read" (field data "collection") (field data "item")) ;;
  templateData ←
    call (fun h => users_readByQuery C h acc sender_fields (Js.substring_from 1 <$> mentions))
         (UsersReadByQuery acc sender_fields (Js.substring_from 1 <$> mentions)) ;
  let n := notification_for data comment mentions sender user userID templateData in
  call (fun h => notifications_createOne C h n) (NotificationsCreateOne n) ;;
  mret tt.

(** The [catch], lines 108 to 114. *)
Definition catch_forbidden (userID : string) (err : Thrown) : M unit :=
  if isDirectusError_Forbidden err then logger_warn (warning_text userID)
  else throw err.

(** The body of the loop over the mentions, lines 41 to 114. *)
Definition notify_mention (data : Item) (comment : string) (mentions : list string)
    (sender : User) (mention : string) : M unit :=
  let userID := Js.substring_from 1 mention in
  user ←
    call (fun h => users_readOne C h None (Some userID) recipient_fields)
         (UsersReadOne None (Some userID) recipient_fields) ;
  let skeleton := recipient_accountability userID user None in
  permissions ← call (fun h => getPermissions C h skeleton) (GetPermissions skeleton) ;
  let acc := recipient_accountability userID user (Some permissions) in
  try_catch (try_notify data comment mentions sender user userID acc)
            (catch_forbidden userID).

(** [this.usersService.readOne(this.accountability!.user!, ...)]: reading
    [user] of a missing accountability throws a [TypeError]; a missing user
    is handed to [readOne] as it is. *)
Definition read_sender (this : ActivityService) : M User :=
  match accountability this with
  | None => throw (TypeError "Cannot read properties of null (reading 'user')")
  | Some a =>
      call (fun h => users_readOne C h None (acc_user a) sender_fields)
           (UsersReadOne None (acc_user a) sender_fields)
  end.

(** Lines 31 to 116. *)
Definition notify_mentions (this : ActivityService) (data : Item) : M unit :=
  match field data "comment" with
  | JsStr comment =>
      if decide (field data "action" = Action_COMMENT) then
        let mentions := mentions_of comment in
        sender ← read_sender this ;
        for_of mentions (notify_mention data comment mentions sender)
      else mret tt
  | _ => mret tt
  end.

Definition createOne (this : ActivityService) (data : Item)
    (opts : option MutationOptions) : M JsVal :=
  notify_mentions this data ;;
  call (fun h => items_createOne C h data opts) (ItemsCreateOne data opts).

(** ** What the log of a run tells *)

(** The four calls that come just before a notification is handed to the
    notifications service. *)
Definition lead_up (data : Item) (mentions : list string)
    (userID : string) (user : User) (perms : list Permission) (rows : list User) : list Event :=
  let skeleton := recipient_accountability userID user None in
  let acc := recipient_accountability userID user (Some perms) in
  [ UsersReadOne None (Some userID) recipient_fields (inr user);
    GetPermissions skeleton (inr perms);
    CheckAccess acc "read" (field data "collection") (field data "item") (inr tt);
    UsersReadByQuery acc sender_fields (Js.substring_from 1 <$> mentions) (inr rows) ].

Definition provenance (data : Item) (comment : string) (mentions : list string)
    (sender : User) (d : list Event) : Prop :=
  ∀ pre n r post, d = pre ++ NotificationsCreateOne n r :: post →
    ∃ pre' user perms rows,
      pre = pre' ++ lead_up data mentions (recipient n) user perms rows ∧
      n = notification_for data comment mentions sender user (recipient n) rows.

Definition sender_lookup (a : Accountability) (res : Thrown + User) : Event :=
  UsersReadOne None (acc_user a) sender_fields res.

Definition null_user_error : Thrown :=
  TypeError "Cannot read properties of null (reading 'user')".

Definition comment_action (data : Item) (comment : string) : Prop :=
  field data "action" = Action_COMMENT ∧ field data "comment" = JsStr comment.

(** The four ways [notify_mentions] runs. *)
Inductive mentions_run (this : ActivityService) (data : Item) (h : list Event) :
    list Event → Thrown + unit → Prop :=
| run_not_comment :
    (∀ comment, ¬ comment_action data comment) →
    mentions_run this data h [] (inr tt)
| run_no_accountability comment :
    comment_action data comment →
    accountability this = None →
    mentions_run this data h [] (inl null_user_error)
| run_sender_fails comment a err :
    comment_action data comment →
    accountability this = Some a →
    users_readOne C h None (acc_user a) sender_fields = inl err →
    mentions_run this data h [sender_lookup a (inl err)] (inl err)
| run_loop comment a sender d r :
    comment_action data comment →
    accountability this = Some a →
    users_readOne C h None (acc_user a) sender_fields = inr sender →
    for_of (mentions_of comment)
      (notify_mention data comment (mentions_of comment) sender)
      (h ++ [sender_lookup a (inr sender)]) = (d, r) →
    mentions_run this data h (sender_lookup a (inr sender) :: d) r.

Definition creations (d : list Event) : list (Item * option MutationOptions * (Thrown + JsVal)) :=
  omap (fun e => match e with
                 | ItemsCreateOne data opts r => Some (data, opts, r)
                 | _ => None
                 end) d.

(** A call inside the [try] that threw: the recipient of the turn and what
    was thrown. *)
Definition boundary_failure (e : Event) : option (string * Thrown) :=
  match e with
  | CheckAccess acc _ _ _ (inl err) => (fun u => (u, err)) <$> acc_user acc
  | UsersReadByQuery acc _ _ (inl err) => (fun u => (u, err)) <$> acc_user acc
  | NotificationsCreateOne n (inl err) => Some (recipient n, err)
  | _ => None
  end.

(** What the turn of the mention [m] does after a call inside the [try]
    threw: a [Forbidden] error is followed by the warning and ends the turn
    without an error, any other error ends it as its outcome. *)
Definition isolated_turn (m : string) (d : list Event) (res : Thrown + unit) : Prop :=
  ∀ pre e post uid err,
    d = pre ++ e :: post → boundary_failure e = Some (uid, err) →
    uid = Js.substring_from 1 m ∧
    match err with
    | DirectusError Forbidden =>
        post = [LoggerWarn ("User " +:+ uid +:+
                  " doesn't have proper permissions to receive notification for this item.")] ∧
        res = inr tt
    | _ => post = [] ∧ res = inl err
    end.

(** The same for the loop over the mentions [l]: after the warning comes
    the lookup of the mention that follows, when there is one. *)
Definition isolated (l : list string) (d : list Event) (res : Thrown + unit) : Prop :=
  ∀ pre e post uid err,
    d = pre ++ e :: post → boundary_failure e = Some (uid, err) →
    ∃ before m after,
      l = before ++ m :: after ∧ uid = Js.substring_from 1 m ∧
      match err with
      | DirectusError Forbidden =>
          ∃ rest,
            post = LoggerWarn ("User " +:+ uid +:+
                     " doesn't have proper permissions to receive notification for this item.")
                   :: rest ∧
            match after with
            | m' :: _ =>
                ∃ r rest',
                  rest = UsersReadOne None (Some (Js.substring_from 1 m')) recipient_fields r
                         :: rest'
            | [] => rest = [] ∧ res = inr tt
            end
      | _ => post = [] ∧ res = inl err
      end.

Definition enqueued (d : list Event) : list string :=
  omap (fun e => match e with
                 | NotificationsCreateOne n _ => Some (recipient n)
                 | _ => None
                 end) d.

Definition warnings (d : list Event) : list string :=
  omap (fun e => match e with
                 | LoggerWarn msg => Some msg
                 | _ => None
                 end) d.


Definition fetches (d : list Event) : list (option string) :=
  omap (fun e => match e with
                 | UsersReadByQuery acc _ _ _ => Some (acc_user acc)
                 | _ => None
                 end) d.

(** C3 as the specification states it. *)
Definition unknown_mention_enqueues_nothing (this : ActivityService) (data : Item)
    (opts : option MutationOptions) (h : list Event) : Prop :=
  ∀ comment m,
    comment_action data comment → m ∈ mentions_of comment →
    (∀ h', ∃ err,
       users_readOne C h' None (Some (Js.substring_from 1 m)) recipient_fields = inl err) →
    (∃ err, (createOne this data opts h).2 = inl err) ∧
    enqueued (createOne this data opts h).1 = [].

(** C4 as the specification states it: one batch fetch, finished before the
    first access check, and one body in every notification. *)
Definition rendered_once_before_checks (d : list Event) : Prop :=
  length (fetches d) = 1 ∧
  (∀ pre acc action coll pk r post,
     d = pre ++ CheckAccess acc action coll pk r :: post → fetches pre ≠ []) ∧
  ∃ body, ∀ n r, NotificationsCreateOne n r ∈ d →
    ∃ user sender href, message n = message_text user sender body href.

(** C8 as the specification states it. *)
Definition only_creates_record (this : ActivityService) (data : Item)
    (opts : option MutationOptions) (h : list Event) : Prop :=
  ∀ comment,
    comment_action data comment → mentions_of comment = [] →
    ∃ r, createOne this data opts h = ([ItemsCreateOne data opts r], r).


(** The identifiers whose recipient lookup is in the log. *)
Definition resolved (d : list Event) : list string :=
  omap (fun e => match e with
                 | UsersReadOne _ (Some key) fields _ =>
                     if decide (fields = recipient_fields) then Some key else None
                 | _ => None
                 end) d.

(** A call outside the [try] that threw. *)
Definition unguarded_failure (e : Event) : option Thrown :=
  match e with
  | UsersReadOne _ _ _ (inl err) => Some err
  | GetPermissions _ (inl err) => Some err
  | _ => None
  end.

Definition unguarded (d : list Event) (res : Thrown + unit) : Prop :=
  ∀ pre e post err,
    d = pre ++ e :: post → unguarded_failure e = Some err → post = [] ∧ res = inl err.

Definition warned (d : list Event) : Prop :=
  ∀ pre msg post, d = pre ++ LoggerWarn msg :: post →
    ∃ pre' e uid,
      pre = pre' ++ [e] ∧
      boundary_failure e = Some (uid, DirectusError Forbidden) ∧
      msg = "User " +:+ uid +:+
            " doesn't have proper permissions to receive notification for this item.".

Definition fetched_after_check (data : Item) (d : list Event) : Prop :=
  ∀ pre acc fields ids r post, d = pre ++ UsersReadByQuery acc fields ids r :: post →
    ∃ pre',
      pre = pre' ++
        [CheckAccess acc "read" (field data "collection") (field data "item") (inr tt)].

End Activity.

(** ** The mention grammar, as the specification words it *)

Definition hex_digit (c : ascii) : Prop := c ∈ Js.chars "0123456789abcdefABCDEF".

Definition variant_nibble (c : ascii) : Prop := c ∈ Js.chars "89abAB".

Definition hex_group (n : nat) (g : string) : Prop :=
  String.length g = n ∧ Forall hex_digit (Js.chars g).

Definition mention_token (m : string) : Prop :=
  ∃ g1 g2 g3 v g4 g5,
    m = "@" +:+ g1 +:+ "-" +:+ g2 +:+ "-4" +:+ g3 +:+ "-" +:+ String v g4 +:+ "-" +:+ g5 ∧
    hex_group 8 g1 ∧ hex_group 4 g2 ∧ hex_group 3 g3 ∧
    variant_nibble v ∧ hex_group 3 g4 ∧ hex_group 12 g5.

Definition occurs_at (m text : string) (i : nat) : Prop :=
  ∃ pre post, text = pre +:+ m +:+ post ∧ String.length pre = i.

Definition accepts (cl : Regex.CharClass) (c : ascii) : Prop := cl c = true.

Fixpoint of_chars (l : list ascii) : string :=
  match l with [] => EmptyString | c :: t => String c (of_chars t) end.

Fixpoint tokens_from (s : string) : list string :=
  match s with
  | EmptyString => []
  | String _ t =>
      match Regex.exec_at Regex.usersRegExp s with
      | Some m => m :: tokens_from t
      | None => tokens_from t
      end
  end.

Definition token_at (s : string) (i : nat) (m : string) : Prop :=
  Regex.exec_at Regex.usersRegExp (Js.substring_from i s) = Some m.

Fixpoint no_sigil (n : nat) (s : string) : Prop :=
  match n, s with
  | S k, String c t => c ≠ "@"%char ∧ no_sigil k t
  | _, _ => True
  end.

(** The values of [l] that are not in [seen], each at its first occurrence. *)
Fixpoint firsts (seen l : list string) : list string :=
  match l with
  | [] => []
  | x :: t => if bool_decide (x ∈ seen) then firsts seen t else x :: firsts (x :: seen) t
  end.

(** The substitution as the specification words it: every occurrence of
    the mention, from left to right, replaced by the same text. *)
Fixpoint replace_literal_loop (mention subst : string) (skip : nat) (s : string) : string :=
  match s with
  | EmptyString => EmptyString
  | String c t =>
      match skip with
      | S k => replace_literal_loop mention subst k t
      | 0 =>
          if Js.starts_with mention s then
            subst +:+ replace_literal_loop mention subst (String.length mention - 1) t
          else String c (replace_literal_loop mention subst 0 t)
      end
  end.

Definition render_literal (isValidUuid : string → bool)
    (userPreviews : gmap string string) (mentions : list string) (comment : string) : string :=
  quoted (foldl (fun comment mention =>
                   let uuid := Js.substring_from 1 mention in
                   if isValidUuid uuid then
                     replace_literal_loop mention
                       (default "@Unknown User" (userPreviews !! uuid)) 0 comment
                   else comment)
                comment mentions).


(** [s.includes(t)] *)
Fixpoint includes (t s : string) : bool :=
  match s with
  | EmptyString => Js.starts_with t EmptyString
  | String _ s' => Js.starts_with t s || includes t s'
  end.

(** A character of a mention after its sigil. *)
Definition body_char (c : ascii) : bool := Regex.hex_i c || Regex.lit "-" c.

(** A substitution text that no mention can run into: the placeholder, or
    a text that opens with ['<'] and holds no sigil. *)
Definition tame (subst : string) : Prop :=
  subst = "@Unknown User" ∨
  ∃ rest, subst = String "<" rest ∧ "@"%char ∉ Js.chars rest.

(** ** A database of three users *)

Module Scenario.

Definition ana_id : string := "11111111-1111-4111-8111-111111111111".
Definition bob_id : string := "22222222-2222-4222-9222-222222222222".
Definition nobody_id : string := "33333333-3333-4333-a333-333333333333".
Definition author_id : string := "44444444-4444-4444-b444-444444444444".

Definition person (uid given family : string) : User :=
  {| id := uid; first_name := Some given; last_name := Some family;
     email := None; role := None |}.

Definition ana : User := person ana_id "Ana" "Silva".
Definition bob : User := person bob_id "Bob" "Stone".
Definition author : User := person author_id "Eve" "Moss".

(** Modelled from the spec: [userName] of [utils/user-name], the given and
    the family name when the row has both, else the contact address. *)
Definition user_name (user : User) : string :=
  match first_name user, last_name user with
  | Some given, Some family => given +:+ " " +:+ family
  | _, _ => default "Unknown User" (email user)
  end.

(** Modelled from the spec: [isValidUuid] of [utils/is-valid-uuid], the
    identifier grammar of the mention pattern without its sigil. *)
Definition is_valid_uuid (uuid : string) : bool :=
  bool_decide (Regex.exec_at (tail Regex.usersRegExp) uuid = Some uuid).

(** Modelled from the spec: the link builder, the base address followed by
    the path [admin/content/<collection>/<item>]. *)
Definition content_href (coll pk : JsVal) : string :=
  "http://localhost:8055/admin/content/" +:+ template_string coll +:+ "/" +:+
  template_string pk.

Definition utils : Utils :=
  {| userName := user_name;
     isValidUuid := is_valid_uuid;
     admin_content_href := content_href |}.

Definition not_found : Thrown := DirectusError (OtherCode "NOT_FOUND").

(** The keys are numbers that count the calls made so far. *)
Definition next_key {Permission MutationOptions : Type}
    (h : list (@Event Permission MutationOptions)) : JsVal :=
  JsNum (NilEmpty.string_of_uint (Nat.to_uint (length h))).

(** A database of users [rows], the users [readers] who may read the
    commented record, and for each user the profiles [visible] to it. *)
Definition services (rows : list User) (readers : list string)
    (visible : string → list User) : @Collaborators unit unit :=
  {| users_readOne := fun _ _ key _ =>
       match key with
       | Some k =>
           match list_find (fun u => id u = k) rows with
           | Some (_, u) => inr u
           | None => inl not_found
           end
       | None => inl not_found
       end;
     getPermissions := fun _ _ => inr [];
     checkAccess := fun _ acc _ _ _ =>
       match acc_user acc with
       | Some u => if bool_decide (u ∈ readers) then inr tt else inl (DirectusError Forbidden)
       | None => inl (DirectusError Forbidden)
       end;
     users_readByQuery := fun _ acc _ ids =>
       inr (filter (fun u => id u ∈ ids) (visible (default "" (acc_user acc))));
     notifications_createOne := fun h _ => inr (next_key h);
     items_createOne := fun h _ _ => inr (next_key h) |}.

Definition everyone : list User := [ana; bob; author].

Definition comment_on_article (text : string) : Item :=
  {[ "action" := JsStr "comment"; "comment" := JsStr text;
     "collection" := JsStr "articles"; "item" := JsNum "12" ]}.

Definition signed_in (uid : string) : @ActivityService unit :=
  {| accountability :=
       Some {| acc_user := Some uid; acc_role := None; acc_admin := None;
               acc_app := None; acc_permissions := None |} |}.

Definition anonymous : @ActivityService unit := {| accountability := None |}.

Definition ana_and_bob : string := "ping @" +:+ ana_id +:+ " and @" +:+ bob_id +:+ " re item".
Definition ana_and_nobody : string := "ping @" +:+ ana_id +:+ " and @" +:+ nobody_id.
Definition ana_twice : string := "@" +:+ ana_id +:+ " and @" +:+ ana_id.

Definition no_mention : string := "thanks, fixed in the last revision".

Definition only_ana_sees (uid : string) : list User :=
  if decide (uid = ana_id) then everyone else [].

Definition dollar : User := person ana_id "$'" "S".


Definition ana_accountability : @Accountability unit :=
  recipient_accountability ana_id ana (Some []).

Definition bob_accountability : @Accountability unit :=
  recipient_accountability bob_id bob (Some []).

Definition ana_notification (text : string) (rows : list User) : Notification :=
  notification_for utils (comment_on_article text) text (mentions_of text)
    author ana ana_id rows.

Definition new_article : Item :=
  {[ "action" := JsStr "create"; "collection" := JsStr "articles"; "item" := JsNum "12" ]}.

(** ** A newsroom with roles *)

Definition carla_id : string := "55555555-5555-4555-8555-555555555555".
Definition dan_id : string := "66666666-6666-4666-9666-666666666666".

Definition editor : Role :=
  {| role_id := Some "editor"; admin_access := Some false; app_access := Some true |}.

Definition staff (uid given family : string) : User :=
  {| id := uid; first_name := Some given; last_name := Some family;
     email := None; role := Some editor |}.

Definition carla : User := staff carla_id "Carla" "Reis".
Definition dan : User := staff dan_id "Dan" "Cole".

Definition desk : list User := [ana; carla; dan; author].

(** The users [rows], with names of permissions for permission rows: the
    role [editor] is permitted to read the articles, and the access check
    passes under an accountability that holds this permission; [fetch] and
    [deliver] tell what the profile fetch and the notifications service
    throw for a user, if anything. *)
Definition newsroom (rows : list User) (fetch deliver : string → option Thrown) :
    @Collaborators string unit :=
  {| users_readOne := fun _ _ key _ =>
       match key with
       | Some k =>
           match list_find (fun u => id u = k) rows with
           | Some (_, u) => inr u
           | None => inl not_found
           end
       | None => inl not_found
       end;
     getPermissions := fun _ acc =>
       inr (if decide (acc_role acc = Some "editor") then ["articles.read"] else []);
     checkAccess := fun _ acc _ _ _ =>
       if decide ("articles.read" ∈ default [] (acc_permissions acc)) then inr tt
       else inl (DirectusError Forbidden);
     users_readByQuery := fun _ acc _ ids =>
       match fetch (default "" (acc_user acc)) with
       | Some err => inl err
       | None => inr (filter (fun u => id u ∈ ids) rows)
       end;
     notifications_createOne := fun h n =>
       match deliver (recipient n) with
       | Some err => inl err
       | None => inr (next_key h)
       end;
     items_createOne := fun h _ _ => inr (next_key h) |}.

Definition never : string → option Thrown := fun _ => None.

Definition fails_for (uid : string) (err : Thrown) : string → option Thrown :=
  fun u => if decide (u = uid) then Some err else None.

(** The commenter of the newsroom, an administrator. *)
Definition chief : @ActivityService string :=
  {| accountability :=
       Some {| acc_user := Some author_id; acc_role := Some "admin"; acc_admin := Some true;
               acc_app := Some true;
               acc_permissions := Some ["articles.read"; "articles.update"] |} |}.

Definition ana_and_carla : string := "see @" +:+ ana_id +:+ " and @" +:+ carla_id.

Definition ana_carla_dan : string :=
  "@" +:+ ana_id +:+ " @" +:+ carla_id +:+ " @" +:+ dan_id.


(** The accountability of an editor and that of a user without a role,
    with the permissions [perms]. *)
Definition as_editor (uid : string) (perms : option (list string)) : @Accountability string :=
  {| acc_user := Some uid; acc_role := Some "editor"; acc_admin := Some false;
     acc_app := Some true; acc_permissions := perms |}.

Definition without_role (uid : string) (perms : option (list string)) : @Accountability string :=
  {| acc_user := Some uid; acc_role := None; acc_admin := None;
     acc_app := None; acc_permissions := perms |}.

Definition notification_to (user : User) (text : string) (rows : list User) : Notification :=
  notification_for utils (comment_on_article text) text (mentions_of text)
    author user (id user) rows.

Definition lost : Thrown := OtherError "connection lost".

(** ** A service with a null user *)



End Scenario.

(** ** Tactics *)

(** Runs one turn of the loop: cases on the outcome of each call. *)
Ltac run :=
  repeat first
    [ progress cbn
    | match goal with
      | |- context [users_readOne ?C ?h ?a ?k ?f] =>
          destruct (users_readOne C h a k f) as [?|?] eqn:?
      | |- context [getPermissions ?C ?h ?a] =>
          destruct (getPermissions C h a) as [?|?] eqn:?
      | |- context [checkAccess ?C ?h ?a ?x ?y ?z] =>
          destruct (checkAccess C h a x y z) as [?|[]] eqn:?
      | |- context [users_readByQuery ?C ?h ?a ?x ?y] =>
          destruct (users_readByQuery C h a x y) as [?|?] eqn:?
      | |- context [notifications_createOne ?C ?h ?n] =>
          destruct (notifications_createOne C h n) as [?|?] eqn:?
      | |- context [isDirectusError_Forbidden ?e] =>
          destruct (isDirectusError_Forbidden e) eqn:?
      end ].

Ltac unfold_turn :=
  unfold notify_mention, try_notify, try_catch, catch_forbidden, call, logger_warn, throw,
    mbind, M_bind, mret, M_ret.

(** * Mention extraction *)

Lemma append_cons c s1 s2 : String c s1 +:+ s2 = String c (s1 +:+ s2).
Proof. reflexivity. Qed.

Lemma append_empty_l s : EmptyString +:+ s = s.
Proof. reflexivity. Qed.

Lemma chars_app s1 s2 : Js.chars (s1 +:+ s2) = Js.chars s1 ++ Js.chars s2.
Proof. induction s1 as [|c s1 IH]; [done|]. rewrite append_cons. cbn. by rewrite IH. Qed.

Lemma chars_length s : length (Js.chars s) = String.length s.
Proof. induction s; cbn; congruence. Qed.

Lemma chars_inj s1 s2 : Js.chars s1 = Js.chars s2 → s1 = s2.
Proof.
  revert s2. induction s1 as [|c s1 IH]; intros [|d s2] H; cbn in H; try done.
  simplify_eq. f_equal. by apply IH.
Qed.

Lemma exec_at_spec re s m :
  Regex.exec_at re s = Some m ↔
  Forall2 accepts re (Js.chars m) ∧ ∃ rest, s = m +:+ rest.
Proof.
  revert s m. induction re as [|cl re IH]; intros s m; cbn.
  - split.
    + intros [= <-]. split; [constructor|]. by exists s.
    + intros [H _]. destruct m; [done|]. cbn in H. inversion H.
  - destruct s as [|c t].
    + split; [done|]. intros [H [rest Hr]]. destruct m; cbn in *; [inversion H|done].
    + split.
      * destruct (cl c) eqn:Hc; [|done].
        destruct (Regex.exec_at re t) as [m'|] eqn:He; [|done]. cbn.
        apply IH in He as [H1 [rest ->]]. intros [= <-]. cbn.
        split; [by constructor|]. by exists rest.
      * intros [H [rest Hr]]. destruct m as [|d m]; cbn in H; [inversion H|].
        rewrite append_cons in Hr. simplify_eq. inversion H; subst.
        match goal with Ha : accepts cl d |- _ => rewrite Ha end.
        assert (Regex.exec_at re (m +:+ rest) = Some m) as ->; [|done].
        apply IH. split; [done|]. by exists rest.
Qed.

Lemma chars_of_chars l : Js.chars (of_chars l) = l.
Proof. induction l; cbn; congruence. Qed.

Lemma of_chars_chars s : of_chars (Js.chars s) = s.
Proof. induction s; cbn; congruence. Qed.

Lemma hex_i_spec c : accepts Regex.hex_i c ↔ hex_digit c.
Proof.
  unfold accepts, hex_digit.
  rewrite <-(bool_decide_spec (c ∈ _)), <-Is_true_true.
  destruct c as [[] [] [] [] [] [] [] []]; vm_compute; tauto.
Qed.

Lemma variant_i_spec c : accepts Regex.variant_i c ↔ variant_nibble c.
Proof.
  unfold accepts, variant_nibble.
  rewrite <-(bool_decide_spec (c ∈ _)), <-Is_true_true.
  destruct c as [[] [] [] [] [] [] [] []]; vm_compute; tauto.
Qed.

Lemma lit_spec a c : accepts (Regex.lit a) c ↔ c = a.
Proof. unfold accepts, Regex.lit. apply Ascii.eqb_eq. Qed.

Lemma hex_run_spec n l :
  Forall2 accepts (replicate n Regex.hex_i) l ↔ ∃ g, l = Js.chars g ∧ hex_group n g.
Proof.
  unfold hex_group. split.
  - intros H. exists (of_chars l). rewrite chars_of_chars, <-chars_length, chars_of_chars.
    split; [done|]. split.
    + apply Forall2_length in H. by rewrite length_replicate in H.
    + revert l H. induction n; intros l H; inversion H; subst; constructor.
      * by apply hex_i_spec.
      * auto.
  - intros (g & -> & Hn & Hl). apply Forall2_replicate_l; [by rewrite chars_length|].
    eapply Forall_impl; [done|]. intros c. apply hex_i_spec.
Qed.

Lemma usersRegExp_spec m :
  Forall2 accepts Regex.usersRegExp (Js.chars m) ↔ mention_token m.
Proof.
  unfold Regex.usersRegExp, mention_token. split.
  - intros H.
    repeat match type of H with
    | Forall2 _ (Regex.lit _ :: _) _ =>
        apply Forall2_cons_inv_l in H as (? & ? & ?%lit_spec & H & ?)
    | Forall2 _ (Regex.variant_i :: _) _ =>
        apply Forall2_cons_inv_l in H as (? & ? & ?%variant_i_spec & H & ?)
    | Forall2 _ (replicate _ _ ++ _) _ =>
        let H' := fresh in
        apply Forall2_app_inv_l in H as (? & ? & H' & H & ?);
        apply hex_run_spec in H' as (? & ? & ?)
    end; subst.
    apply hex_run_spec in H as (? & ? & ?). subst.
    match goal with
    | _ : hex_group 8 ?a, _ : hex_group 4 ?b, _ : hex_group 3 ?c,
      _ : variant_nibble ?v, _ : hex_group 3 ?d, _ : hex_group 12 ?e,
      Hm : Js.chars m = _ |- _ =>
        exists a, b, c, v, d, e;
        split; [apply chars_inj; rewrite Hm;
                repeat (rewrite ?chars_app; cbn); reflexivity|]
    end.
    eauto 10.
  - intros (g1 & g2 & g3 & v & g4 & g5 & -> & H1 & H2 & H3 & Hv & H4 & H5).
    match goal with |- Forall2 _ _ ?l =>
      assert (l = "@"%char :: Js.chars g1 ++ "-"%char :: Js.chars g2 ++
                  "-"%char :: "4"%char :: Js.chars g3 ++ "-"%char :: v :: Js.chars g4 ++
                  "-"%char :: Js.chars g5) as ->
        by (repeat (rewrite ?chars_app; cbn); reflexivity)
    end.
    repeat first
      [ apply Forall2_cons; split; [by first [apply lit_spec|apply variant_i_spec]|]
      | apply Forall2_app; [apply hex_run_spec; eauto|] ].
    apply hex_run_spec; eauto.
Qed.

Lemma exec_at_sigil c t m :
  Regex.exec_at Regex.usersRegExp (String c t) = Some m →
  c = "@"%char ∧ ∃ m', m = String c m' ∧ no_sigil (String.length m') (m' +:+ Js.substring_from (String.length m') t)
     ∧ String.length m - 1 = String.length m'.
Proof.
  intros [H [rest Hr]]%exec_at_spec.
  destruct m as [|d m]; [inversion H|]. rewrite append_cons in Hr. simplify_eq.
  change Regex.usersRegExp with (Regex.lit "@" :: tail Regex.usersRegExp) in H.
  cbn [Js.chars] in H. apply Forall2_cons in H as [Hc%lit_spec H].
  split; [done|]. exists m. split; [done|]. split; [|cbn; lia].
  assert (Forall (fun cl : Regex.CharClass => cl "@"%char = false) (tail Regex.usersRegExp)) as Hre.
  { unfold Regex.usersRegExp. cbn. repeat constructor. }
  clear Hc. revert H Hre. generalize (tail Regex.usersRegExp) as re.
  induction m as [|a m IH]; intros re H Hre; [done|].
  cbn in H. inversion H as [|cl ? re' ? Ha H']; subst. inversion Hre; subst.
  rewrite append_cons. cbn. split.
  - intros ->. unfold accepts in Ha. congruence.
  - eapply IH; eauto.
Qed.

Lemma substring_from_app m rest : Js.substring_from (String.length m) (m +:+ rest) = rest.
Proof. induction m; [done|]. rewrite append_cons. done. Qed.

Lemma match_all_tokens n s :
  no_sigil n s → Regex.match_all Regex.usersRegExp n s = tokens_from s.
Proof.
  revert n. induction s as [|c t IH]; intros n Hn; [done|].
  destruct n as [|k].
  - cbn [Regex.match_all tokens_from].
    destruct (Regex.exec_at Regex.usersRegExp (String c t)) as [m|] eqn:E.
    + f_equal. apply IH.
      pose proof E as (-> & m' & -> & Hs & ->)%exec_at_sigil.
      apply exec_at_spec in E as [_ [rest Hr]]. rewrite append_cons in Hr. simplify_eq.
      by rewrite substring_from_app in Hs.
    + by apply IH.
  - destruct Hn as [Hc Hn]. cbn [Regex.match_all tokens_from].
    destruct (Regex.exec_at Regex.usersRegExp (String c t)) as [m|] eqn:E.
    + by apply exec_at_sigil in E as [-> _].
    + by apply IH.
Qed.

Lemma token_at_cons c t i m : token_at (String c t) (S i) m ↔ token_at t i m.
Proof. done. Qed.

Lemma token_at_nil i m : ¬ token_at EmptyString i m.
Proof. unfold token_at. by destruct i. Qed.

Lemma tokens_from_split s l1 m l2 :
  tokens_from s = l1 ++ m :: l2 →
  ∃ i, token_at s i m ∧ ∀ m', m' ∈ l1 ↔ ∃ j, j < i ∧ token_at s j m'.
Proof.
  revert l1. induction s as [|c t IH]; intros l1 H; [by destruct l1|].
  cbn [tokens_from] in H.
  destruct (Regex.exec_at Regex.usersRegExp (String c t)) as [m0|] eqn:E.
  - destruct l1 as [|x l1]; cbn in H; injection H as -> H.
    + exists 0. split; [done|]. intros m'. split; [by intros ?%elem_of_nil|].
      intros (j & ? & _). lia.
    + apply IH in H as (i & Hi & Hl). exists (S i). split; [done|].
      intros m'. rewrite elem_of_cons, Hl. split.
      * intros [->|(j & ? & ?)]; [exists 0; split; [lia|done]|].
        exists (S j). split; [lia|done].
      * intros ([|j] & ? & Hj).
        -- left. unfold token_at in Hj. cbn in Hj. cbn in E. congruence.
        -- right. exists j. split; [lia|done].
  - apply IH in H as (i & Hi & Hl). exists (S i). split; [done|].
    intros m'. rewrite Hl. split.
    + intros (j & ? & ?). exists (S j). split; [lia|done].
    + intros ([|j] & ? & Hj).
      * unfold token_at in Hj. cbn in Hj. cbn in E. congruence.
      * exists j. split; [lia|done].
Qed.

Lemma elem_of_tokens_from s m : m ∈ tokens_from s ↔ ∃ i, token_at s i m.
Proof.
  induction s as [|c t IH].
  - split; [by intros ?%elem_of_nil|]. intros [i H]. by apply token_at_nil in H.
  - cbn [tokens_from].
    destruct (Regex.exec_at Regex.usersRegExp (String c t)) as [m0|] eqn:E.
    + rewrite elem_of_cons, IH. split.
      * intros [->|[i Hi]]; [by exists 0|by exists (S i)].
      * intros [[|i] Hi]; [left; unfold token_at in Hi; cbn in *; congruence|right; by exists i].
    + rewrite IH. split.
      * intros [i Hi]. by exists (S i).
      * intros [[|i] Hi]; [unfold token_at in Hi; cbn in *; congruence|by exists i].
Qed.

Lemma substring_from_occurs s i m rest :
  m ≠ EmptyString → Js.substring_from i s = m +:+ rest →
  ∃ pre, s = pre +:+ m +:+ rest ∧ String.length pre = i.
Proof.
  intros Hm. revert s. induction i as [|i IH]; intros s H.
  - by exists EmptyString.
  - destruct s as [|c t]; cbn in H.
    + destruct m; [done|]. by rewrite append_cons in H.
    + apply IH in H as (pre & -> & <-). by exists (String c pre).
Qed.

Lemma mention_token_nonempty m : mention_token m → m ≠ EmptyString.
Proof. intros (? & ? & ? & ? & ? & ? & -> & _). by rewrite append_cons. Qed.

Lemma token_at_spec s i m : token_at s i m ↔ mention_token m ∧ occurs_at m s i.
Proof.
  unfold token_at. rewrite exec_at_spec, usersRegExp_spec. split.
  - intros [Hm [rest Hr]]. split; [done|].
    apply substring_from_occurs in Hr as (pre & -> & <-);
      [|by apply mention_token_nonempty].
    by exists pre, rest.
  - intros [Hm (pre & post & -> & <-)]. split; [done|]. exists post.
    apply substring_from_app.
Qed.

Lemma firsts_ext seen1 seen2 l :
  (∀ x, x ∈ seen1 ↔ x ∈ seen2) → firsts seen1 l = firsts seen2 l.
Proof.
  revert seen1 seen2. induction l as [|x t IH]; intros s1 s2 H; [done|]. cbn.
  rewrite (bool_decide_ext _ _ (H x)). case_bool_decide; [by apply IH|].
  f_equal. apply IH. intros y. rewrite !elem_of_cons, H. done.
Qed.

Lemma uniq_loop_firsts result l : uniq_loop result l = result ++ firsts result l.
Proof.
  revert result. induction l as [|x t IH]; intros result; cbn.
  - by rewrite app_nil_r.
  - case_bool_decide; [done|]. rewrite IH, <-app_assoc. cbn. do 2 f_equal.
    apply firsts_ext. intros y. rewrite elem_of_app, !elem_of_cons, elem_of_nil. tauto.
Qed.

Lemma elem_of_firsts seen l x : x ∈ firsts seen l ↔ x ∈ l ∧ x ∉ seen.
Proof.
  revert seen. induction l as [|y t IH]; intros seen; cbn.
  - split; [by intros ?%elem_of_nil|]. by intros [?%elem_of_nil _].
  - case_bool_decide as Hy.
    + rewrite IH, elem_of_cons. split; [tauto|]. intros [[->|?] ?]; tauto.
    + rewrite !elem_of_cons, IH, not_elem_of_cons. split.
      * intros [->|(? & ? & ?)]; tauto.
      * intros [[->|?] ?]; [tauto|]. destruct (decide (x = y)); tauto.
Qed.

Lemma NoDup_firsts seen l : NoDup (firsts seen l).
Proof.
  revert seen. induction l as [|y t IH]; intros seen; cbn; [constructor|].
  case_bool_decide; [done|]. constructor; [|done].
  rewrite elem_of_firsts, not_elem_of_cons. tauto.
Qed.

Lemma firsts_split seen l u1 m u2 :
  firsts seen l = u1 ++ m :: u2 →
  ∃ l1 l2, l = l1 ++ m :: l2 ∧ ∀ y, y ∈ l1 → y ∈ seen ∨ y ∈ u1.
Proof.
  revert seen u1. induction l as [|x t IH]; intros seen u1 H; cbn in H; [by destruct u1|].
  case_bool_decide as Hx.
  - apply IH in H as (l1 & l2 & -> & Hl). exists (x :: l1), l2. split; [done|].
    intros y [->|?]%elem_of_cons; auto.
  - destruct u1 as [|z u1]; cbn in H; injection H as -> H.
    + exists [], t. split; [done|]. by intros y ?%elem_of_nil.
    + apply IH in H as (l1 & l2 & -> & Hl). exists (z :: l1), l2. split; [done|].
      intros y [->|Hy%Hl]%elem_of_cons; [right; left|].
      rewrite !elem_of_cons in *. tauto.
Qed.

Lemma mentions_of_tokens text : mentions_of text = firsts [] (tokens_from text).
Proof.
  unfold mentions_of, uniq. rewrite uniq_loop_firsts. cbn. f_equal.
  apply match_all_tokens. done.
Qed.

Lemma elem_of_mentions_of text m :
  m ∈ mentions_of text ↔ mention_token m ∧ ∃ i, occurs_at m text i.
Proof.
  rewrite mentions_of_tokens, elem_of_firsts, elem_of_tokens_from. split.
  - intros [[i [? ?]%token_at_spec] _]. eauto.
  - intros [? [i ?]]. split; [|by intros ?%elem_of_nil]. exists i. by apply token_at_spec.
Qed.

(** C6.  The mentions of a text are without duplicates; they are the tokens
    of the grammar that occur in the text; a mention that comes before
    another in the result occurs in the text before every occurrence of the
    other; the version nibble of each is [4] and its variant nibble one of
    [8], [9], [a], [b] in either case. *)
Theorem mentions_of_spec (text : string) :
  NoDup (mentions_of text) ∧
  (∀ m, m ∈ mentions_of text ↔ mention_token m ∧ ∃ i, occurs_at m text i) ∧
  (∀ u1 m1 u2 m2 u3, mentions_of text = u1 ++ m1 :: u2 ++ m2 :: u3 →
     ∃ i, occurs_at m1 text i ∧ ∀ j, occurs_at m2 text j → i < j) ∧
  (∀ m, m ∈ mentions_of text →
     ∃ v, String.get 15 m = Some "4"%char ∧ String.get 20 m = Some v ∧ variant_nibble v).
Proof.
  split; [rewrite mentions_of_tokens; apply NoDup_firsts|].
  split; [apply elem_of_mentions_of|]. split.
  - intros u1 m1 u2 m2 u3 H.
    assert (m2 ∈ mentions_of text) as [Hm2 _]%elem_of_mentions_of.
    { rewrite H, elem_of_app, elem_of_cons, elem_of_app, elem_of_cons. tauto. }
    rewrite mentions_of_tokens in H.
    pose proof (NoDup_firsts [] (tokens_from text)) as Hnd. rewrite H in Hnd.
    apply NoDup_app in Hnd as (_ & Hnd1 & Hnd).
    apply NoDup_cons in Hnd as [Hnd2 _].
    assert (m2 ∈ u2 ++ m2 :: u3) as Hin2.
    { rewrite elem_of_app, elem_of_cons. tauto. }
    apply firsts_split in H as (l1 & l2 & Hl & Hl1).
    apply tokens_from_split in Hl as (i & [Hm1 Hi]%token_at_spec & Hbefore).
    exists i. split; [done|]. intros j Hj.
    assert (token_at text j m2) as Htj by by apply token_at_spec.
    destruct (decide (j < i)) as [Hlt|Hge].
    + assert (m2 ∈ l1) as [?%elem_of_nil|Hm]%Hl1 by (apply Hbefore; eauto); [done|].
      exfalso. apply (Hnd1 m2 Hm). by apply elem_of_cons; right.
    + destruct (decide (j = i)) as [->|]; [|lia].
      assert (token_at text i m1) as Hti by by apply token_at_spec.
      unfold token_at in *. assert (m1 = m2) as -> by congruence. done.
  - intros m [(g1 & g2 & g3 & v & g4 & g5 & -> & [H1 _] & [H2 _] & [H3 _] & Hv & _) _]%elem_of_mentions_of.
    exists v.
    destruct g1 as [|? [|? [|? [|? [|? [|? [|? [|? [|? ?]]]]]]]]]; try done.
    destruct g2 as [|? [|? [|? [|? [|? ?]]]]]; try done.
    destruct g3 as [|? [|? [|? [|? ?]]]]; try done.
Qed.

(** * Rendering *)

Lemma GetSubstitution_plain matched before after template :
  "$"%char ∉ Js.chars template →
  GetSubstitution matched before after template = template.
Proof.
  induction template as [|c t IH]; [done|]. cbn [Js.chars].
  intros [Hc Ht]%not_elem_of_cons. cbn.
  destruct (Ascii.eqb_spec c "$"); [done|]. by rewrite IH.
Qed.

Lemma replace_loop_plain mention template before skip s :
  "$"%char ∉ Js.chars template →
  replace_loop mention template before skip s = replace_literal_loop mention template skip s.
Proof.
  intros Ht. revert before skip. induction s as [|c t IH]; intros before skip; [done|].
  cbn. destruct skip; [|apply IH].
  destruct (Js.starts_with mention (String c t)).
  - by rewrite GetSubstitution_plain, IH.
  - by rewrite IH.
Qed.

(** X3.  When no substitution text of a mention holds a dollar sign, the
    rendering is the plain one: every occurrence of a mention is replaced
    by its substitution text as it stands. *)
Theorem render_comment_plain isValidUuid (userPreviews : gmap string string) mentions comment :
  (∀ m, m ∈ mentions →
     "$"%char ∉ Js.chars (default "@Unknown User" (userPreviews !! Js.substring_from 1 m))) →
  render_comment isValidUuid userPreviews mentions comment =
  render_literal isValidUuid userPreviews mentions comment.
Proof.
  unfold render_comment, render_literal, substitute_mentions. intros H. f_equal.
  revert comment. induction mentions as [|m l IH]; intros comment; [done|]. cbn [foldl].
  rewrite IH by (intros; apply H; by right).
  destruct (isValidUuid _); [|done].
  unfold replace_mention. rewrite replace_loop_plain; [done|]. apply H. by left.
Qed.

Lemma starts_with_occurs mention s :
  Js.starts_with mention s = true → occurs_at mention s 0.
Proof.
  revert s. induction mention as [|a p IH]; intros s H.
  - by exists EmptyString, s.
  - destruct s as [|b t]; [done|]. cbn in H.
    destruct (Ascii.eqb_spec a b) as [->|]; [|done].
    apply IH in H as (pre & post & -> & Hl). destruct pre; [|done].
    by exists EmptyString, post.
Qed.

Lemma occurs_at_cons m c t i : occurs_at m t i → occurs_at m (String c t) (S i).
Proof. intros (pre & post & -> & <-). by exists (String c pre), post. Qed.

Lemma replace_loop_absent mention template before s :
  (∀ i, ¬ occurs_at mention s i) →
  replace_loop mention template before 0 s = s.
Proof.
  revert before. induction s as [|c t IH]; intros before H; [done|]. cbn.
  destruct (Js.starts_with mention (String c t)) eqn:Hs.
  - by apply starts_with_occurs, H in Hs.
  - f_equal. apply IH. intros i Hi. by apply (H (S i)), occurs_at_cons.
Qed.

(** X4.  Replacing a mention that does not occur in the text leaves the
    text as it is, whatever the substitution text. *)
Theorem replace_mention_absent mention template s :
  (∀ i, ¬ occurs_at mention s i) → replace_mention mention template s = s.
Proof. apply replace_loop_absent. Qed.

(** X5.  The mentions whose identifier fails [isValidUuid] are passed
    over, and only they: the loop leaves the comment as the replacement of
    the mentions that pass the check, taken in their order, leaves it. *)
Theorem substitute_mentions_valid_only isValidUuid (userPreviews : gmap string string)
    mentions comment :
  substitute_mentions isValidUuid userPreviews mentions comment =
  foldl (fun text mention =>
           replace_mention mention
             (default "@Unknown User" (userPreviews !! Js.substring_from 1 mention)) text)
        comment
        (filter (fun mention => isValidUuid (Js.substring_from 1 mention) = true) mentions).
Proof.
  unfold substitute_mentions. revert comment.
  induction mentions as [|m l IH]; intros comment; [done|].
  rewrite filter_cons. cbn [foldl].
  destruct (isValidUuid (Js.substring_from 1 m)) eqn:Hv.
  - rewrite decide_True by done. cbn [foldl]. apply IH.
  - rewrite decide_False by done. apply IH.
Qed.

Lemma quote_breaks_lines in_run s pre post :
  quote_breaks in_run s = pre +:+ String newline post →
  Js.starts_with "> " post = true.
Proof.
  revert in_run pre. induction s as [|c t IH]; intros in_run pre H.
  - cbn in H. by destruct pre.
  - cbn in H. destruct (Ascii.eqb_spec c newline) as [->|Hc].
    + destruct in_run; [by eapply IH|].
      destruct pre as [|a pre]; rewrite ?append_cons in H; cbn in H.
      * injection H as <-. done.
      * injection H as <- H.
        destruct pre as [|a pre]; rewrite ?append_cons in H; cbn in H; [done|].
        injection H as <- H.
        destruct pre as [|a pre]; rewrite ?append_cons in H; cbn in H; [done|].
        injection H as <- H. by eapply IH.
    + destruct pre as [|a pre]; rewrite ?append_cons in H; cbn in H.
      * injection H as -> _. done.
      * injection H as <- H. by eapply IH.
Qed.

(** X2.  The quoted comment starts with the quote marker, and every line
    feed in it is followed by the quote marker: no line is left unquoted
    and no line is empty. *)
Theorem quoted_lines comment :
  Js.starts_with "> " (quoted comment) = true ∧
  ∀ pre post, quoted comment = pre +:+ String newline post →
    Js.starts_with "> " post = true.
Proof.
  split; [done|]. unfold quoted. intros pre post H.
  destruct pre as [|a pre]; rewrite ?append_cons in H; cbn in H; [done|].
  injection H as <- H.
  destruct pre as [|a pre]; rewrite ?append_cons in H; cbn in H; [done|].
  injection H as <- H. by eapply quote_breaks_lines.
Qed.

Lemma length_append a b : String.length (a +:+ b) = String.length a + String.length b.
Proof. induction a; [done|]. rewrite append_cons. cbn. congruence. Qed.

Lemma mention_sigil text m :
  m ∈ mentions_of text → m = "@" +:+ Js.substring_from 1 m.
Proof.
  intros [(g1 & g2 & g3 & v & g4 & g5 & -> & _) _]%elem_of_mentions_of. reflexivity.
Qed.

(** X10.  A mention is the sigil followed by its identifier: it has 37
    characters, the identifier that [substring(1)] yields has 36, and
    putting the sigil back gives the mention. *)
Theorem mention_sigil_and_identifier text m :
  m ∈ mentions_of text →
  m = "@" +:+ Js.substring_from 1 m ∧
  String.length m = 37 ∧ String.length (Js.substring_from 1 m) = 36.
Proof.
  intros Hm. split; [by eapply mention_sigil|]. revert Hm.
  intros [(g1 & g2 & g3 & v & g4 & g5 & -> & [H1 _] & [H2 _] & [H3 _] & _ & [H4 _] & [H5 _]) _]%elem_of_mentions_of.
  rewrite !append_cons, !append_empty_l. cbn [Js.substring_from String.length].
  repeat (rewrite ?length_append, ?append_cons; cbn [String.length]).
  rewrite H1, H2, H3, H4, H5. done.
Qed.

Lemma mention_identifiers_NoDup text : NoDup (Js.substring_from 1 <$> mentions_of text).
Proof.
  apply NoDup_fmap_2_strong; [|rewrite mentions_of_tokens; apply NoDup_firsts].
  intros x y Hx%mention_sigil Hy%mention_sigil. congruence.
Qed.

Lemma starts_with_app t post : Js.starts_with t (t +:+ post) = true.
Proof.
  induction t as [|c t IH]; [by destruct post|]. rewrite append_cons. cbn.
  by rewrite Ascii.eqb_refl.
Qed.

Lemma includes_occurs t s i : occurs_at t s i → includes t s = true.
Proof.
  intros (pre & post & -> & _). induction pre as [|c pre IH].
  - rewrite append_empty_l. destruct t as [|a t]; [by destruct post|].
    rewrite append_cons. cbn [includes]. by rewrite <-append_cons, starts_with_app.
  - rewrite append_cons. cbn [includes]. rewrite IH. apply orb_true_r.
Qed.

Lemma includes_substring_from t k s :
  t ≠ EmptyString → includes t (Js.substring_from k s) = true → includes t s = true.
Proof.
  intros Ht. revert s. induction k as [|k IH]; intros s H; [done|].
  destruct s as [|c s]; [done|]. cbn in H. cbn [includes]. rewrite (IH s H).
  apply orb_true_r.
Qed.

Lemma token_body t :
  mention_token t →
  ∃ b body, t = String "@" (String b body) ∧
    Forall (fun c => body_char c = true) (Js.chars (String b body)).
Proof.
  intros Ht%usersRegExp_spec.
  destruct t as [|a body]; [inversion Ht|]. cbn [Js.chars] in Ht.
  change Regex.usersRegExp with (Regex.lit "@" :: tail Regex.usersRegExp) in Ht.
  apply Forall2_cons in Ht as [->%lit_spec Ht].
  destruct body as [|b body]; [inversion Ht|].
  exists b, body. split; [done|].
  assert (Forall (fun cl : Regex.CharClass => ∀ c, cl c = true → body_char c = true)
            (tail Regex.usersRegExp)) as Hcl.
  { unfold Regex.usersRegExp. cbn [tail replicate app].
    repeat constructor; intros c;
      try (by unfold body_char; intros ->);
      destruct c as [[] [] [] [] [] [] [] []]; vm_compute; done. }
  revert Ht Hcl. generalize (tail Regex.usersRegExp). generalize (Js.chars (String b body)).
  intros l re H. induction H as [|cl c re' l' Hc H IH]; intros Hcl; [constructor|].
  inversion Hcl; subst. constructor; auto.
Qed.

Lemma starts_with_cons a t c s :
  Js.starts_with (String a t) (String c s) = if Ascii.eqb a c then Js.starts_with t s else false.
Proof. reflexivity. Qed.

Lemma starts_with_sigil body c s :
  c ≠ "@"%char → Js.starts_with (String "@" body) (String c s) = false.
Proof. intros Hc. cbn [Js.starts_with]. by destruct (Ascii.eqb_spec "@" c). Qed.

Lemma includes_no_sigil body subst s :
  "@"%char ∉ Js.chars subst →
  includes (String "@" body) (subst +:+ s) = includes (String "@" body) s.
Proof.
  induction subst as [|c subst IH]; [done|]. cbn [Js.chars].
  intros [Hc Hs]%not_elem_of_cons. rewrite append_cons. cbn [includes].
  rewrite starts_with_sigil by done. by apply IH.
Qed.

Lemma includes_tame b body subst s :
  tame subst → body_char b = true →
  includes (String "@" (String b body)) (subst +:+ s) =
  includes (String "@" (String b body)) s.
Proof.
  intros [->|(rest & -> & Hr)] Hb.
  - change "@Unknown User" with (String "@" "Unknown User"). rewrite append_cons.
    cbn [includes].
    assert (Js.starts_with (String "@" (String b body)) (String "@" ("Unknown User" +:+ s)) = false)
      as ->.
    { rewrite append_cons. cbn [Js.starts_with]. rewrite Ascii.eqb_refl.
      destruct (Ascii.eqb_spec b "U") as [->|]; [discriminate Hb|done]. }
    apply includes_no_sigil. apply (bool_decide_unpack _). vm_compute. exact I.
  - rewrite append_cons. cbn [includes]. rewrite starts_with_sigil by done.
    by apply includes_no_sigil.
Qed.

Lemma tame_head subst :
  tame subst → ∃ r rest, subst = String r rest ∧ body_char r = false.
Proof. intros [->|(rest & -> & _)]; eexists _, _; split; reflexivity. Qed.

(** What is read in the result before the first substitution is read in
    the text. *)
Lemma starts_with_replaced mention subst body s :
  tame subst →
  Forall (fun c => body_char c = true) (Js.chars body) →
  Js.starts_with body (replace_literal_loop mention subst 0 s) = true →
  Js.starts_with body s = true.
Proof.
  intros (r & rest & -> & Hr)%tame_head. revert s.
  induction body as [|b body IH]; intros s Hb H; [done|].
  cbn [Js.chars] in Hb. apply Forall_cons in Hb as [Hb Hbody].
  destruct s as [|c s]; [done|]. cbn [replace_literal_loop] in H.
  destruct (Js.starts_with mention (String c s)).
  - rewrite append_cons in H. cbn [Js.starts_with] in H.
    destruct (Ascii.eqb_spec b r) as [->|]; [congruence|done].
  - cbn [Js.starts_with] in *. destruct (Ascii.eqb b c); [|done]. by apply IH.
Qed.

Lemma replaced_includes mention subst skip s b body :
  tame subst →
  Forall (fun c => body_char c = true) (Js.chars (String b body)) →
  includes (String "@" (String b body)) (replace_literal_loop mention subst skip s) = true →
  String "@" (String b body) ≠ mention ∧
  includes (String "@" (String b body)) (Js.substring_from skip s) = true.
Proof.
  intros Ht Hb. pose proof Hb as [Hb1 _]%Forall_cons.
  revert skip. induction s as [|c s IH]; intros skip H.
  - by destruct skip.
  - destruct skip as [|k]; cbn [replace_literal_loop Js.substring_from] in *; [|by apply IH].
    destruct (Js.starts_with mention (String c s)) eqn:Hs.
    + rewrite includes_tame in H by done. apply IH in H as [Hne H]. split; [done|].
      apply includes_substring_from in H; [|done].
      cbn [includes]. rewrite H. apply orb_true_r.
    + cbn [includes] in *. apply orb_true_iff in H as [H|H].
      * destruct (Ascii.eqb_spec "@" c) as [<-|Hc]; [|by rewrite starts_with_sigil in H].
        rewrite starts_with_cons, Ascii.eqb_refl in H.
        apply starts_with_replaced in H; [|done..].
        assert (Js.starts_with (String "@" (String b body)) (String "@" s) = true) as Hs'
          by by rewrite starts_with_cons, Ascii.eqb_refl.
        rewrite Hs'. split; [congruence|done].
      * apply IH in H as [Hne H]. cbn in H. rewrite H. split; [done|apply orb_true_r].
Qed.

Lemma starts_with_quoted body s :
  Forall (fun c => body_char c = true) (Js.chars body) →
  Js.starts_with body (quote_breaks false s) = true →
  Js.starts_with body s = true.
Proof.
  revert s. induction body as [|b body IH]; intros s Hb H; [done|].
  cbn [Js.chars] in Hb. apply Forall_cons in Hb as [Hb Hbody].
  destruct s as [|c s]; [done|]. cbn [quote_breaks] in H.
  destruct (Ascii.eqb_spec c newline) as [->|Hc].
  - rewrite starts_with_cons in H.
    destruct (Ascii.eqb_spec b newline) as [->|]; [discriminate Hb|done].
  - rewrite starts_with_cons in *. destruct (Ascii.eqb b c); [|done]. by apply IH.
Qed.

Lemma quote_breaks_includes in_run s b body :
  Forall (fun c => body_char c = true) (Js.chars (String b body)) →
  includes (String "@" (String b body)) (quote_breaks in_run s) = true →
  includes (String "@" (String b body)) s = true.
Proof.
  intros Hb. revert in_run. induction s as [|c s IH]; intros in_run H; [done|].
  cbn [quote_breaks] in H. cbn [includes].
  destruct (Ascii.eqb_spec c newline) as [->|Hc].
  - destruct in_run.
    + apply IH in H. rewrite H. apply orb_true_r.
    + cbn [includes] in H. rewrite starts_with_sigil in H by done.
      rewrite includes_no_sigil in H
        by (apply (bool_decide_unpack _); vm_compute; exact I).
      apply IH in H. rewrite H. apply orb_true_r.
  - cbn [includes] in H. apply orb_true_iff in H as [H|H].
    + destruct (Ascii.eqb_spec "@" c) as [<-|Hs]; [|by rewrite starts_with_sigil in H].
      rewrite starts_with_cons, Ascii.eqb_refl in H.
      apply starts_with_quoted in H; [|done].
      by rewrite starts_with_cons, Ascii.eqb_refl, H.
    + apply IH in H. rewrite H. apply orb_true_r.
Qed.

Lemma substituted_includes isValidUuid (userPreviews : gmap string string) mentions comment b body :
  (∀ m, m ∈ mentions →
     isValidUuid (Js.substring_from 1 m) = true ∧
     ("$"%char ∉ Js.chars (default "@Unknown User" (userPreviews !! Js.substring_from 1 m))) ∧
     tame (default "@Unknown User" (userPreviews !! Js.substring_from 1 m))) →
  Forall (fun c => body_char c = true) (Js.chars (String b body)) →
  includes (String "@" (String b body))
    (substitute_mentions isValidUuid userPreviews mentions comment) = true →
  String "@" (String b body) ∉ mentions.
Proof.
  unfold substitute_mentions. intros Hm Hb. revert comment.
  induction mentions as [|m l IH]; intros comment H; [apply not_elem_of_nil|].
  cbn [foldl] in H. apply not_elem_of_cons.
  destruct (Hm m) as (Hv & Hd & Ht); [by left|].
  split; [|eapply IH; [intros; apply Hm; by right|done]].
  intros <-. rewrite Hv in H.
  unfold replace_mention in H. rewrite replace_loop_plain in H by done.
  assert (∀ l' s, includes (String "@" (String b body))
            (foldl (fun comment mention =>
               if isValidUuid (Js.substring_from 1 mention)
               then replace_mention mention
                      (default "@Unknown User" (userPreviews !! Js.substring_from 1 mention))
                      comment
               else comment) s l') = true →
          (∀ m', m' ∈ l' → m' ∈ l) →
          includes (String "@" (String b body)) s = true) as Hfold.
  { induction l' as [|m' l' IH']; intros s Hs Hl; [done|]. cbn [foldl] in Hs.
    apply IH' in Hs; [|intros; apply Hl; by right].
    destruct (Hm m') as (Hv' & Hd' & Ht'); [right; apply Hl; by left|].
    rewrite Hv' in Hs. unfold replace_mention in Hs. rewrite replace_loop_plain in Hs by done.
    by apply replaced_includes in Hs as [_ Hs]. }
  apply Hfold in H; [|done].
  by apply replaced_includes in H as [Hne _].
Qed.

(** X12.  When the mentions are tokens with valid identifiers and each
    substitution text holds no dollar sign and is the placeholder or a text
    that opens with ['<'] and holds no sigil, no mention of the list occurs
    in the rendered comment. *)
Theorem no_mention_left isValidUuid (userPreviews : gmap string string) mentions comment m i :
  (∀ m', m' ∈ mentions →
     mention_token m' ∧
     isValidUuid (Js.substring_from 1 m') = true ∧
     ("$"%char ∉ Js.chars (default "@Unknown User" (userPreviews !! Js.substring_from 1 m'))) ∧
     tame (default "@Unknown User" (userPreviews !! Js.substring_from 1 m'))) →
  m ∈ mentions →
  ¬ occurs_at m (render_comment isValidUuid userPreviews mentions comment) i.
Proof.
  intros Hm Hin Ho%includes_occurs.
  destruct (Hm m Hin) as [(b & body & -> & Hb)%token_body _].
  unfold render_comment, quoted in Ho.
  rewrite includes_no_sigil in Ho by (apply (bool_decide_unpack _); vm_compute; exact I).
  apply quote_breaks_includes in Ho; [|done].
  apply substituted_includes in Ho; [done| |done].
  intros m' Hm'. destruct (Hm m' Hm') as (_ & ? & ? & ?). done.
Qed.

(** * The fan-out *)

Section Proofs.
Context {Permission MutationOptions : Type}.
Local Abbreviation Event := (@Event Permission MutationOptions).
Local Abbreviation Accountability := (@Accountability Permission).
Local Abbreviation M := (@M Permission MutationOptions).
Local Abbreviation provenance := (@provenance Permission MutationOptions).
Local Abbreviation mentions_run := (@mentions_run Permission MutationOptions).
Variable C : @Collaborators Permission MutationOptions.
Variable U : Utils.

Lemma for_of_cons {A} (x : A) rest (body : A → M unit) h :
  for_of (x :: rest) body h =
  match body x h with
  | (d, inl err) => (d, inl err)
  | (d, inr _) =>
      match for_of rest body (h ++ d) with
      | (d', r) => (d ++ d', r)
      end
  end.
Proof. reflexivity. Qed.

(** A property of the events of each turn of a loop that is kept by
    concatenation holds of the events of the loop. *)
Lemma for_of_events {A} (P : list Event → Prop) (l : list A) (body : A → M unit) :
  P [] →
  (∀ d1 d2, P d1 → P d2 → P (d1 ++ d2)) →
  (∀ x h, x ∈ l → P (body x h).1) →
  ∀ h, P (for_of l body h).1.
Proof.
  intros Hnil Happ. induction l as [|x l IH]; intros Hbody h; [done|].
  rewrite for_of_cons.
  pose proof (Hbody x h (list_elem_of_here _ _)) as Hx.
  destruct (body x h) as [d [err|[]]]; [done|].
  specialize (IH (fun y h' Hy => Hbody y h' (list_elem_of_further _ _ _ Hy)) (h ++ d)).
  destruct (for_of l body (h ++ d)) as [d' r]. cbn in *. by apply Happ.
Qed.

Lemma split_app (d1 d2 pre post : list Event) x :
  d1 ++ d2 = pre ++ x :: post →
  (∃ post1, d1 = pre ++ x :: post1 ∧ post = post1 ++ d2) ∨
  (∃ pre2, pre = d1 ++ pre2 ∧ d2 = pre2 ++ x :: post).
Proof.
  revert pre. induction d1 as [|e d1 IH]; intros pre H.
  - right. by exists pre.
  - destruct pre as [|p pre]; cbn in H; injection H as -> H.
    + left. by exists d1.
    + apply IH in H as [(post1 & -> & ->)|(pre2 & -> & ->)].
      * left. by exists post1.
      * right. by exists pre2.
Qed.

Lemma provenance_notify_mention data comment mentions sender m h :
  provenance U data comment mentions sender (notify_mention C U data comment mentions sender m h).1.
Proof.
  unfold notify_mention, try_notify, try_catch, catch_forbidden, call, logger_warn, throw,
    mbind, M_bind, mret, M_ret.
  run; intros pre n r post H.
  all: repeat (destruct pre as [|? pre]; cbn in H; [try discriminate H|injection H as <- H]);
       try (by destruct pre).
  all: injection H as <- <- <-; cbn; eexists [], _, _, _; split; reflexivity.
Qed.

Lemma notify_mentions_run this data h :
  mentions_run C U this data h (notify_mentions C U this data h).1 (notify_mentions C U this data h).2.
Proof.
  unfold notify_mentions.
  destruct (field data "comment") as [| | | |comment] eqn:Hc;
    try (apply run_not_comment; intros c [_ ?]; congruence).
  destruct (decide (field data "action" = Action_COMMENT)) as [Ha|Ha];
    [|apply run_not_comment; intros c [? _]; congruence].
  unfold read_sender, mbind, M_bind.
  destruct (accountability this) as [a|] eqn:Hacc; cbn.
  - unfold call. cbn.
    destruct (users_readOne C h None (acc_user a) sender_fields) as [err|sender] eqn:Hs.
    + by eapply run_sender_fails.
    + destruct (for_of _ _ _) as [d r] eqn:Hl. cbn. by eapply run_loop.
  - by eapply run_no_accountability.
Qed.

Lemma createOne_run this data opts h :
  createOne C U this data opts h =
  match notify_mentions C U this data h with
  | (d, inl err) => (d, inl err)
  | (d, inr _) =>
      let r := items_createOne C (h ++ d) data opts in
      (d ++ [ItemsCreateOne data opts r], r)
  end.
Proof.
  unfold createOne, mbind, M_bind, call.
  by destruct (notify_mentions C U this data h) as [d [err|[]]].
Qed.

Lemma comment_action_inj data c1 c2 :
  comment_action data c1 → comment_action data c2 → c1 = c2.
Proof. intros [_ H1] [_ H2]. congruence. Qed.

Lemma provenance_nil data comment mentions sender : provenance U data comment mentions sender [].
Proof. intros [|? pre] ? ? ? H; discriminate H. Qed.

Lemma provenance_app data comment mentions sender d1 d2 :
  provenance U data comment mentions sender d1 →
  provenance U data comment mentions sender d2 →
  provenance U data comment mentions sender (d1 ++ d2).
Proof.
  intros H1 H2 pre n r post [(post1 & -> & ->)|(pre2 & -> & ->)]%split_app.
  - by eapply H1.
  - destruct (H2 pre2 n r post eq_refl) as (pre' & user & perms & rows & -> & Hn).
    exists (d1 ++ pre'), user, perms, rows. by rewrite app_assoc.
Qed.

Lemma provenance_for_of data comment mentions sender l h :
  provenance U data comment mentions sender
    (for_of l (notify_mention C U data comment mentions sender) h).1.
Proof.
  apply for_of_events.
  - apply provenance_nil.
  - apply provenance_app.
  - intros. apply provenance_notify_mention.
Qed.

(** Every notification handed to the notifications service comes right
    after the recipient's own lookup, permissions, access check and profile
    fetch, and is built from their results. *)
Lemma createOne_provenance this data opts h pre n r post :
  (createOne C U this data opts h).1 = pre ++ NotificationsCreateOne n r :: post →
  ∃ comment a sender pre' user perms rows,
    comment_action data comment ∧ accountability this = Some a ∧
    pre = sender_lookup a (inr sender) :: pre' ++
          lead_up data (mentions_of comment) (recipient n) user perms rows ∧
    n = notification_for U data comment (mentions_of comment) sender user (recipient n) rows.
Proof.
  rewrite createOne_run. pose proof (notify_mentions_run this data h) as Hrun.
  destruct (notify_mentions C U this data h) as [d res]. cbn in Hrun.
  intros H. assert (∃ post', d = pre ++ NotificationsCreateOne n r :: post') as [post' ->].
  { destruct res as [err|[]]; cbn in H.
    - eauto.
    - apply split_app in H as [(post1 & -> & _)|(pre2 & _ & H)]; [eauto|].
      destruct pre2 as [|? [|? ?]]; discriminate H. }
  clear H. inversion Hrun as [| | |comment a sender d r' Hc Ha Hs Hl Hd]; subst.
  - by destruct pre.
  - by destruct pre.
  - by destruct pre as [|? [|? ?]].
  - destruct pre as [|e pre]; cbn in Hd; [discriminate Hd|]. injection Hd as <- ->.
    pose proof (provenance_for_of data comment (mentions_of comment) sender
                  (mentions_of comment) (h ++ [sender_lookup a (inr sender)])) as Hp.
    rewrite Hl in Hp. destruct (Hp pre n r post' eq_refl) as (pre' & user & perms & rows & -> & Hn).
    by exists comment, a, sender, pre', user, perms, rows.
Qed.

Lemma field_lookup (data : Item) key s :
  field data key = JsStr s → data !! key = Some (JsStr s).
Proof. unfold field. by destruct (data !! key) as [v|]; cbn; intros; simplify_eq. Qed.

(** C1.  A notification is handed to the notifications service only at the
    end of the turn of its recipient R: right before it come the lookup of
    R with its role, the permissions resolved for the accountability that
    holds the identifier of R and the role and the flags of the row looked
    up, a successful read check of the commented record under that
    accountability with the permissions resolved, and the profile fetch.
    The accountability of the commenter is in none of them. *)
Theorem notification_requires_recipient_read_access this data opts h pre n r post :
  (createOne C U this data opts h).1 = pre ++ NotificationsCreateOne n r :: post →
  ∃ pre' user perms fetch,
    pre = pre' ++
      [ UsersReadOne None (Some (recipient n))
          ["id"; "first_name"; "last_name"; "email";
           "role.id"; "role.admin_access"; "role.app_access"]
          (inr user);
        GetPermissions
          {| acc_user := Some (recipient n);
             acc_role := role user ≫= role_id;
             acc_admin := role user ≫= admin_access;
             acc_app := role user ≫= app_access;
             acc_permissions := None |}
          (inr perms);
        CheckAccess
          {| acc_user := Some (recipient n);
             acc_role := role user ≫= role_id;
             acc_admin := role user ≫= admin_access;
             acc_app := role user ≫= app_access;
             acc_permissions := Some perms |}
          "read"
          (default JsUndefined (data !! "collection"))
          (default JsUndefined (data !! "item"))
          (inr tt);
        fetch ] ∧
    collection n = default JsUndefined (data !! "collection") ∧
    item n = default JsUndefined (data !! "item").
Proof.
  intros (comment & a & sender & pre' & user & perms & rows & _ & _ & -> & ->)%createOne_provenance.
  eexists (sender_lookup a (inr sender) :: pre'), user, perms, _.
  split; [|done]. reflexivity.
Qed.

(** C4, as amended.  The profiles are fetched and the comment is rendered
    in the turn of each authorized recipient: a notification comes right after
    the lookup of its recipient, the resolution of the recipient's
    permissions, the successful access check and the profile fetch made
    under the recipient's accountability for the identifiers of all the
    mentions; its message is the template filled with the names of the
    recipient looked up and of the sender looked up first, with the comment
    rendered from the rows of that fetch and with the link. *)
Theorem notification_body_rendered_per_recipient this data opts h pre n r post :
  (createOne C U this data opts h).1 = pre ++ NotificationsCreateOne n r :: post →
  ∃ comment a sender pre' user perms rows,
    let coll := default JsUndefined (data !! "collection") in
    let pk := default JsUndefined (data !! "item") in
    let acc :=
      {| acc_user := Some (recipient n);
         acc_role := role user ≫= role_id;
         acc_admin := role user ≫= admin_access;
         acc_app := role user ≫= app_access;
         acc_permissions := Some perms |} in
    let body :=
      render_comment (isValidUuid U) (user_previews U rows) (mentions_of comment) comment in
    let nl := String "010" EmptyString in
    let quote := String "034" EmptyString in
    data !! "comment" = Some (JsStr comment) ∧
    accountability this = Some a ∧
    pre =
      UsersReadOne None (acc_user a) ["id"; "first_name"; "last_name"; "email"] (inr sender)
      :: pre' ++
      [ UsersReadOne None (Some (recipient n))
          ["id"; "first_name"; "last_name"; "email";
           "role.id"; "role.admin_access"; "role.app_access"]
          (inr user);
        GetPermissions
          {| acc_user := Some (recipient n);
             acc_role := role user ≫= role_id;
             acc_admin := role user ≫= admin_access;
             acc_app := role user ≫= app_access;
             acc_permissions := None |}
          (inr perms);
        CheckAccess acc "read" coll pk (inr tt);
        UsersReadByQuery acc ["id"; "first_name"; "last_name"; "email"]
          (Js.substring_from 1 <$> mentions_of comment) (inr rows) ] ∧
    message n =
      nl +:+ "Olá " +:+ userName U user +:+ "," +:+ nl +:+
      nl +:+ userName U sender +:+ " mencionou você em um comentário:" +:+ nl +:+
      nl +:+ body +:+ nl +:+
      nl +:+ "<a href=" +:+ quote +:+ admin_content_href U coll pk +:+ quote +:+
        ">Clique aqui para ver.</a>" +:+ nl.
Proof.
  intros (comment & a & sender & pre' & user & perms & rows & [_ Hc] & Ha & -> & ->)%createOne_provenance.
  exists comment, a, sender, pre', user, perms, rows.
  split; [by apply field_lookup|]. split; [done|]. split; reflexivity.
Qed.

Lemma creations_notify_mention data comment mentions sender m h :
  creations (notify_mention C U data comment mentions sender m h).1 = [].
Proof.
  unfold notify_mention, try_notify, try_catch, catch_forbidden, call, logger_warn, throw,
    mbind, M_bind, mret, M_ret.
  run; reflexivity.
Qed.

Lemma creations_notify_mentions this data h :
  creations (notify_mentions C U this data h).1 = [].
Proof.
  destruct (notify_mentions_run this data h) as [| | |comment a sender d r _ _ _ Hl]; try done.
  cbn. change d with (d, r).1. rewrite <-Hl. apply (for_of_events (fun d => creations d = [])).
  - done.
  - intros d1 d2 H1 H2. unfold creations in *. by rewrite omap_app, H1, H2.
  - intros. apply creations_notify_mention.
Qed.

(** C5.  The record is created once, by the last call of the operation and
    with the data given, when the mention processing has finished without
    throwing; when it throws, the operation throws the same and no record
    is created.  The mention processing itself creates no record. *)
Theorem record_created_once_after_mentions this data opts h :
  let run := createOne C U this data opts h in
  let fan_out := notify_mentions C U this data h in
  creations fan_out.1 = [] ∧
  match fan_out.2 with
  | inr _ =>
      run.1 = fan_out.1 ++ [ItemsCreateOne data opts run.2] ∧
      run.2 = items_createOne C (h ++ fan_out.1) data opts ∧
      creations run.1 = [(data, opts, run.2)]
  | inl err => run = (fan_out.1, inl err) ∧ creations run.1 = []
  end.
Proof.
  cbn zeta. pose proof (creations_notify_mentions this data h) as Hc.
  split; [done|]. rewrite createOne_run.
  destruct (notify_mentions C U this data h) as [d [err|[]]]; cbn in *; [done|].
  split; [done|]. split; [done|]. unfold creations in *. by rewrite omap_app, Hc.
Qed.

Lemma forbidden_inv err : isDirectusError_Forbidden err = true → err = DirectusError Forbidden.
Proof. by destruct err as [[]| |]. Qed.

Lemma isolated_notify_mention data comment mentions sender m h :
  isolated_turn m (notify_mention C U data comment mentions sender m h).1
                  (notify_mention C U data comment mentions sender m h).2.
Proof.
  unfold notify_mention, try_notify, try_catch, catch_forbidden, call, logger_warn, throw,
    mbind, M_bind, mret, M_ret.
  run; intros pre e post uid err H Hb.
  all: repeat (destruct pre as [|? pre]; cbn in H;
               [injection H as <- <-|injection H as <- H]);
       try (by destruct pre); cbn in Hb; simplify_eq; try discriminate Hb.
  all: split; [reflexivity|].
  all: match goal with
       | He : isDirectusError_Forbidden _ = true |- _ => by apply forbidden_inv in He as ->
       | He : isDirectusError_Forbidden ?x = false |- _ => by destruct x as [[|?]| |]
       end.
Qed.

Lemma for_of_starts data comment mentions sender m l h :
  ∃ r d',
    (for_of (m :: l) (notify_mention C U data comment mentions sender) h).1 =
    UsersReadOne None (Some (Js.substring_from 1 m)) recipient_fields r :: d'.
Proof.
  rewrite for_of_cons.
  assert (∃ r d', (notify_mention C U data comment mentions sender m h).1 =
            UsersReadOne None (Some (Js.substring_from 1 m)) recipient_fields r :: d')
    as (r & d' & Hd).
  { unfold notify_mention, try_notify, try_catch, catch_forbidden, call, logger_warn, throw,
      mbind, M_bind, mret, M_ret.
    run; eexists _, _; reflexivity. }
  destruct (notify_mention C U data comment mentions sender m h) as [d [err|[]]]; cbn in Hd; subst.
  - by exists r, d'.
  - destruct (for_of l _ _) as [d2 r2]. by exists r, (d' ++ d2).
Qed.

Lemma isolated_for_of data comment mentions sender l h :
  isolated l (for_of l (notify_mention C U data comment mentions sender) h).1
             (for_of l (notify_mention C U data comment mentions sender) h).2.
Proof.
  revert h. induction l as [|m l IH]; intros h.
  - intros [|? pre] ? ? ? ? H; discriminate H.
  - rewrite for_of_cons.
    pose proof (isolated_notify_mention data comment mentions sender m h) as Hm.
    destruct (notify_mention C U data comment mentions sender m h) as [d1 [err1|[]]].
    + intros pre e post uid err H Hb. destruct (Hm pre e post uid err H Hb) as [-> Hcase].
      exists [], m, l. split; [done|]. split; [done|].
      destruct err as [[|?]| |]; try done. by destruct Hcase.
    + specialize (IH (h ++ d1)).
      destruct (for_of l _ (h ++ d1)) as [d2 r2] eqn:Hfor. cbn [fst snd] in *.
      intros pre e post uid err [(post1 & -> & ->)|(pre2 & -> & ->)]%split_app Hb.
      * destruct (Hm pre e post1 uid err eq_refl Hb) as [-> Hcase].
        exists [], m, l. split; [done|]. split; [done|].
        destruct err as [[|?]| |]; try (by destruct Hcase).
        destruct Hcase as [-> _]. exists d2. split; [done|].
        destruct l as [|m' l'].
        -- cbn in Hfor. by injection Hfor as <- <-.
        -- match type of Hfor with for_of _ _ ?h' = _ =>
             destruct (for_of_starts data comment mentions sender m' l' h') as (r & d' & Hd)
           end.
           rewrite Hfor in Hd. cbn in Hd. by exists r, d'.
      * destruct (IH pre2 e post uid err eq_refl Hb) as (before & m0 & after & -> & -> & Hcase).
        by exists (m :: before), m0, after.
Qed.

(** C9.  A call inside the [try] that throws, be it the access check, the
    profile fetch or the creation of the notification, belongs to the turn
    of a mention of the comment.  When the error is the Directus error
    [Forbidden], the next event is the warning that names the recipient,
    and the loop goes on: the event after the warning is the lookup of the
    mention that follows, or, after the last mention, the creation of the
    record, whose outcome is the outcome of the operation.  Any other error
    ends the log and is the outcome of the operation. *)
Theorem forbidden_inside_boundary_skips_recipient this data opts h pre e post uid err :
  (createOne C U this data opts h).1 = pre ++ e :: post →
  boundary_failure e = Some (uid, err) →
  ∃ comment before m after,
    data !! "comment" = Some (JsStr comment) ∧
    mentions_of comment = before ++ m :: after ∧
    uid = Js.substring_from 1 m ∧
    match err with
    | DirectusError Forbidden =>
        ∃ rest,
          post = LoggerWarn ("User " +:+ uid +:+
                   " doesn't have proper permissions to receive notification for this item.")
                 :: rest ∧
          match after with
          | m' :: _ =>
              ∃ res rest',
                rest = UsersReadOne None (Some (Js.substring_from 1 m'))
                         ["id"; "first_name"; "last_name"; "email";
                          "role.id"; "role.admin_access"; "role.app_access"] res
                       :: rest'
          | [] => rest = [ItemsCreateOne data opts (createOne C U this data opts h).2]
          end
    | _ => post = [] ∧ (createOne C U this data opts h).2 = inl err
    end.
Proof.
  rewrite createOne_run. pose proof (notify_mentions_run this data h) as Hrun.
  destruct (notify_mentions C U this data h) as [d res]. cbn in Hrun.
  inversion Hrun as [| | |comment a sender d' r' Hc Ha Hs Hl]; subst; cbn.
  - intros Hsp Hb. destruct pre as [|? [|? ?]]; simplify_eq/=.
  - intros Hsp Hb. by destruct pre.
  - intros Hsp Hb. destruct pre as [|? [|? ?]]; simplify_eq/=.
  - pose proof (isolated_for_of data comment (mentions_of comment) sender (mentions_of comment)
                  (h ++ [sender_lookup a (inr sender)])) as Hi.
    rewrite Hl in Hi. cbn in Hi. intros Hsp Hb.
    destruct Hc as [_ Hc%field_lookup].
    destruct res as [err'|[]]; cbn in Hsp.
    + destruct pre as [|? pre]; cbn in Hsp; injection Hsp as <- ->; [discriminate Hb|].
      destruct (Hi pre e post uid err eq_refl Hb) as (before & m & after & Hm & -> & Hcase).
      exists comment, before, m, after. split; [done|]. split; [done|]. split; [done|].
      destruct err as [[|?]| |]; cbn; try (by destruct Hcase as [-> [= ->]]).
      destruct Hcase as (rest & -> & Hrest). exists rest. split; [done|].
      destruct after as [|m' after']; [by destruct Hrest|done].
    + destruct pre as [|? pre]; cbn in Hsp; injection Hsp as <- Hsp; [discriminate Hb|].
      apply split_app in Hsp as [(post1 & -> & ->)|(pre2 & -> & Hsp)].
      * destruct (Hi pre e post1 uid err eq_refl Hb) as (before & m & after & Hm & -> & Hcase).
        exists comment, before, m, after. split; [done|]. split; [done|]. split; [done|].
        destruct err as [[|?]| |]; cbn; try (by destruct Hcase).
        destruct Hcase as (rest & -> & Hrest). eexists. split; [reflexivity|].
        destruct after as [|m' after'].
        -- by destruct Hrest as [-> _].
        -- destruct Hrest as (res & rest' & ->). by eexists res, _.
      * destruct pre2 as [|? [|? ?]]; simplify_eq/=.
Qed.

Lemma for_of_app {A} (l1 l2 : list A) (body : A → M unit) h :
  for_of (l1 ++ l2) body h =
  match for_of l1 body h with
  | (d, inl err) => (d, inl err)
  | (d, inr _) =>
      match for_of l2 body (h ++ d) with
      | (d', r) => (d ++ d', r)
      end
  end.
Proof.
  revert h. induction l1 as [|x l1 IH]; intros h.
  - cbn. rewrite app_nil_r. by destruct (for_of l2 body h).
  - cbn [app]. rewrite !for_of_cons. destruct (body x h) as [d [err|[]]]; [done|].
    rewrite IH. destruct (for_of l1 body (h ++ d)) as [d1 [err|[]]]; [done|].
    rewrite <-app_assoc. destruct (for_of l2 body _) as [d2 r]. by rewrite app_assoc.
Qed.

Lemma enqueued_notify_mention data comment mentions sender m h u :
  u ∈ enqueued (notify_mention C U data comment mentions sender m h).1 →
  u = Js.substring_from 1 m.
Proof.
  unfold notify_mention, try_notify, try_catch, catch_forbidden, call, logger_warn, throw,
    mbind, M_bind, mret, M_ret.
  run; intros Hu; repeat (apply elem_of_cons in Hu as [->|Hu]; [done|]);
    by apply elem_of_nil in Hu.
Qed.

Lemma enqueued_for_of data comment mentions sender l h u :
  u ∈ enqueued (for_of l (notify_mention C U data comment mentions sender) h).1 →
  u ∈ Js.substring_from 1 <$> l.
Proof.
  revert u. apply (for_of_events (fun d => ∀ u, u ∈ enqueued d → u ∈ Js.substring_from 1 <$> l)).
  - by intros u ?%elem_of_nil.
  - intros d1 d2 H1 H2 u. unfold enqueued in *. rewrite omap_app, elem_of_app. intros [?|?]; auto.
  - intros m h' Hm u ->%enqueued_notify_mention. by apply list_elem_of_fmap_2.
Qed.

Lemma notify_mention_lookup_fails data comment mentions sender m h err :
  users_readOne C h None (Some (Js.substring_from 1 m)) recipient_fields = inl err →
  notify_mention C U data comment mentions sender m h =
  ([UsersReadOne None (Some (Js.substring_from 1 m)) recipient_fields (inl err)], inl err).
Proof.
  intros H. unfold notify_mention, call, mbind, M_bind. cbn zeta. by rewrite H.
Qed.

(** C3, as amended.  When the lookup of a mentioned user fails, the
    operation throws, no record is created, and no notification is handed
    over for that mention or a later one; the notifications of the
    mentions before it stay. *)
Theorem unknown_mention_aborts this data opts h comment pre m post :
  comment_action data comment →
  mentions_of comment = pre ++ m :: post →
  (∀ h', ∃ err,
     users_readOne C h' None (Some (Js.substring_from 1 m)) recipient_fields = inl err) →
  ∃ d err,
    createOne C U this data opts h = (d, inl err) ∧
    creations d = [] ∧
    ∀ u, u ∈ enqueued d → u ∈ Js.substring_from 1 <$> pre.
Proof.
  intros Hc Hm Hfail. rewrite createOne_run.
  pose proof (creations_notify_mentions this data h) as Hcr.
  pose proof (notify_mentions_run this data h) as Hrun.
  destruct (notify_mentions C U this data h) as [d res]. cbn in *.
  inversion Hrun as [Hn| | |comment' a sender d' r' Hc' Ha Hs Hl]; subst.
  - by destruct (Hn comment).
  - eexists _, _. split; [done|]. split; [done|]. by intros u ?%elem_of_nil.
  - eexists _, _. split; [done|]. split; [done|]. by intros u ?%elem_of_nil.
  - assert (comment' = comment) as -> by by eapply comment_action_inj.
    rewrite Hm in Hl at 1. rewrite for_of_app in Hl.
    pose proof (enqueued_for_of data comment (mentions_of comment) sender pre
                  (h ++ [sender_lookup a (inr sender)])) as Hpre.
    destruct (for_of pre _ _) as [d1 [err1|[]]]; cbn in Hpre.
    + injection Hl as <- <-. eexists _, _. split; [done|]. split; [done|].
      intros u. cbn. apply Hpre.
    + destruct (Hfail ((h ++ [sender_lookup a (inr sender)]) ++ d1)) as [err Herr].
      rewrite for_of_cons, (notify_mention_lookup_fails _ _ _ _ _ _ _ Herr) in Hl.
      injection Hl as <- <-.
      eexists _, _. split; [done|]. split; [done|].
      intros u. cbn. unfold enqueued in *. rewrite omap_app, elem_of_app.
      intros [?|?%elem_of_nil]; [auto|done].
Qed.

(** C8, as amended.  A comment without a match yields no mention and no
    work for any recipient; what is left is the lookup of the sender and,
    when it succeeds, the creation of the record. *)
Theorem no_mentions_sender_lookup_then_create this data opts h comment :
  comment_action data comment →
  (∀ m i, mention_token m → ¬ occurs_at m comment i) →
  mentions_of comment = [] ∧
  createOne C U this data opts h =
    match accountability this with
    | None => ([], inl null_user_error)
    | Some a =>
        match users_readOne C h None (acc_user a) sender_fields with
        | inl err => ([sender_lookup a (inl err)], inl err)
        | inr sender =>
            let r := items_createOne C (h ++ [sender_lookup a (inr sender)]) data opts in
            ([sender_lookup a (inr sender); ItemsCreateOne data opts r], r)
        end
    end.
Proof.
  intros Hc Hno.
  assert (mentions_of comment = []) as Hm.
  { apply elem_of_nil_inv. intros m [? [i ?]]%elem_of_mentions_of. by eapply Hno. }
  split; [done|]. rewrite createOne_run.
  pose proof (notify_mentions_run this data h) as Hrun.
  destruct (notify_mentions C U this data h) as [d res]. cbn in Hrun.
  inversion Hrun as [Hn|c0 Hc0 Hnone|c0 a0 err0 Hc0 Ha0 Hf0|comment' a sender d' r' Hc' Ha Hs Hl]; subst.
  - by destruct (Hn comment).
  - by rewrite Hnone.
  - by rewrite Ha0, Hf0.
  - assert (comment' = comment) as -> by by eapply comment_action_inj.
    rewrite Hm in Hl. cbn in Hl. injection Hl as <- <-. by rewrite Ha, Hs.
Qed.





End Proofs.

(** * More on the fan-out *)

Section More.
Context {Permission MutationOptions : Type}.
Local Abbreviation Event := (@Event Permission MutationOptions).
Local Abbreviation Accountability := (@Accountability Permission).
Local Abbreviation M := (@M Permission MutationOptions).
Local Abbreviation mentions_run := (@mentions_run Permission MutationOptions).
Local Abbreviation warned := (@warned Permission MutationOptions).
Local Abbreviation unguarded := (@unguarded Permission MutationOptions).
Local Abbreviation fetched_after_check := (@fetched_after_check Permission MutationOptions).
Local Abbreviation resolved := (@resolved Permission MutationOptions).
Variable C : @Collaborators Permission MutationOptions.
Variable U : Utils.

Lemma notify_mentions_other_action this data h :
  (∀ comment, ¬ comment_action data comment) →
  notify_mentions C U this data h = ([], inr tt).
Proof.
  intros Hn. pose proof (notify_mentions_run C U this data h) as Hrun.
  destruct (notify_mentions C U this data h) as [d res]. cbn in Hrun.
  by inversion Hrun as [?|c0 Hc0 ?|c0 a0 err0 Hc0 ? ?|c0 a s d' r' Hc0 ? ? ?]; subst;
    try (by destruct (Hn c0)).
Qed.

(** X1.  When the action is not a comment, or the comment is not a string,
    [createOne] only hands the data to the creation of the record: no user
    is looked up, with or without an accountability, and the outcome is
    that of the creation. *)
Theorem createOne_other_action this data opts h :
  (∀ comment, ¬ comment_action data comment) →
  createOne C U this data opts h =
  ([ItemsCreateOne data opts (items_createOne C h data opts)], items_createOne C h data opts).
Proof.
  intros Hn. rewrite createOne_run, notify_mentions_other_action by done.
  cbn. by rewrite app_nil_r.
Qed.

Lemma user_previews_snoc rows user :
  user_previews U (rows ++ [user]) =
  <[id user := "<em>" +:+ userName U user +:+ "</em>"]> (user_previews U rows).
Proof. unfold user_previews. by rewrite foldl_app. Qed.

(** X6.  The preview of an identifier is built from the last fetched row
    with that identifier; an identifier with no row has no preview. *)
Theorem user_previews_lookup rows k :
  user_previews U rows !! k =
  (fun user => "<em>" +:+ userName U user +:+ "</em>") <$>
    last (filter (fun user => id user = k) rows).
Proof.
  induction rows as [|user rows IH] using rev_ind; [done|].
  rewrite user_previews_snoc, filter_app, filter_cons, filter_nil.
  destruct (decide (id user = k)) as [<-|Hne].
  - by rewrite lookup_insert_eq, last_snoc.
  - by rewrite lookup_insert_ne, app_nil_r.
Qed.

(** A property of the log that holds of the lookup of the sender, of each
    turn of the loop and of the creation of the record, and that is kept by
    concatenation, holds of the log of [createOne]. *)
Lemma createOne_events (P : list Event → Prop) this data opts h :
  P [] →
  (∀ d1 d2, P d1 → P d2 → P (d1 ++ d2)) →
  (∀ svc key r, P [UsersReadOne svc key sender_fields r]) →
  (∀ r, P [ItemsCreateOne data opts r]) →
  (∀ comment sender m h',
     comment_action data comment →
     P (notify_mention C U data comment (mentions_of comment) sender m h').1) →
  P (createOne C U this data opts h).1.
Proof.
  intros Hnil Happ Hsender Hcreate Hturn. rewrite createOne_run.
  pose proof (notify_mentions_run C U this data h) as Hrun.
  destruct (notify_mentions C U this data h) as [d res]. cbn in Hrun.
  assert (P d) as Hd.
  { inversion Hrun as [?|c0 Hc0 ?|c0 a0 err0 Hc0 ? ?|c0 a s d' r' Hc0 ? ? Hl]; subst; try done.
    - apply Hsender.
    - apply (Happ [_] d'); [apply Hsender|]. change d' with (d', res).1. rewrite <-Hl.
      apply for_of_events; auto. }
  destruct res as [err|[]]; cbn; [done|]. apply Happ; [done|apply Hcreate].
Qed.

Lemma warned_notify_mention data comment mentions sender m h :
  warned (notify_mention C U data comment mentions sender m h).1.
Proof.
  unfold_turn. run; intros pre msg post H.
  all: repeat (destruct pre as [|? pre]; cbn in H; [try discriminate H|injection H as <- H]);
       try (by destruct pre).
  all: injection H as <- <-;
       match goal with He : isDirectusError_Forbidden _ = true |- _ =>
         apply forbidden_inv in He as -> end.
  all: first [ eexists [_; _], _, _; split; [reflexivity|]; split; reflexivity
             | eexists [_; _; _], _, _; split; [reflexivity|]; split; reflexivity
             | eexists [_; _; _; _], _, _; split; [reflexivity|]; split; reflexivity ].
Qed.

Lemma warned_app d1 d2 : warned d1 → warned d2 → warned (d1 ++ d2).
Proof.
  intros H1 H2 pre msg post [(post1 & -> & ->)|(pre2 & -> & ->)]%split_app.
  - by eapply H1.
  - destruct (H2 pre2 msg post eq_refl) as (pre' & e & uid & -> & ? & ?).
    exists (d1 ++ pre'), e, uid. by rewrite app_assoc.
Qed.

(** X9.  A warning is logged only right after a call inside the [try] threw
    [Forbidden], and its text names the recipient of that call. *)
Theorem warning_only_after_forbidden this data opts h pre msg post :
  (createOne C U this data opts h).1 = pre ++ LoggerWarn msg :: post →
  ∃ pre' e uid,
    pre = pre' ++ [e] ∧
    boundary_failure e = Some (uid, DirectusError Forbidden) ∧
    msg = "User " +:+ uid +:+
          " doesn't have proper permissions to receive notification for this item.".
Proof.
  revert pre msg post. change (warned (createOne C U this data opts h).1).
  apply createOne_events.
  - intros [|? ?] ? ? ?; discriminate.
  - apply warned_app.
  - intros svc key r [|? [|? ?]] ? ? ?; discriminate.
  - intros r [|? [|? ?]] ? ? ?; discriminate.
  - intros. apply warned_notify_mention.
Qed.

Lemma fetched_after_check_notify_mention data comment mentions sender m h :
  fetched_after_check data (notify_mention C U data comment mentions sender m h).1.
Proof.
  unfold_turn. run; intros pre acc fields ids r post H.
  all: repeat (destruct pre as [|? pre]; cbn in H; [try discriminate H|injection H as <- H]);
       try (by destruct pre).
  all: injection H as <- <- <- <-; by eexists [_; _].
Qed.

Lemma fetched_after_check_app data d1 d2 :
  fetched_after_check data d1 → fetched_after_check data d2 →
  fetched_after_check data (d1 ++ d2).
Proof.
  intros H1 H2 pre acc fields ids r post [(post1 & -> & ->)|(pre2 & -> & ->)]%split_app.
  - by eapply H1.
  - destruct (H2 pre2 acc fields ids r post eq_refl) as (pre' & ->).
    exists (d1 ++ pre'). by rewrite app_assoc.
Qed.

(** X14.  The profiles are fetched only for a recipient who passed the
    access check: every profile fetch comes right after a successful read
    check of the commented record under the same accountability. *)
Theorem profiles_fetched_after_access_check this data opts h pre acc fields ids r post :
  (createOne C U this data opts h).1 = pre ++ UsersReadByQuery acc fields ids r :: post →
  ∃ pre',
    pre = pre' ++
      [CheckAccess acc "read" (field data "collection") (field data "item") (inr tt)].
Proof.
  revert pre acc fields ids r post.
  change (fetched_after_check data (createOne C U this data opts h).1).
  apply createOne_events.
  - intros [|? ?] ? ? ? ? ?; discriminate.
  - apply fetched_after_check_app.
  - intros svc key r [|? [|? ?]] ? ? ? ? ?; discriminate.
  - intros r [|? [|? ?]] ? ? ? ? ?; discriminate.
  - intros. apply fetched_after_check_notify_mention.
Qed.

Lemma unguarded_notify_mention data comment mentions sender m h :
  unguarded (notify_mention C U data comment mentions sender m h).1
            (notify_mention C U data comment mentions sender m h).2.
Proof.
  unfold_turn. run; intros pre e post err H Hu.
  all: repeat (destruct pre as [|? pre]; cbn in H;
               [injection H as <- <-|injection H as <- H]);
       try (by destruct pre); cbn in Hu; simplify_eq; done.
Qed.

Lemma unguarded_for_of data comment mentions sender l h :
  unguarded (for_of l (notify_mention C U data comment mentions sender) h).1
            (for_of l (notify_mention C U data comment mentions sender) h).2.
Proof.
  revert h. induction l as [|m l IH]; intros h.
  - intros [|? pre] ? ? ? H; discriminate H.
  - rewrite for_of_cons.
    pose proof (unguarded_notify_mention data comment mentions sender m h) as Hm.
    destruct (notify_mention C U data comment mentions sender m h) as [d1 [err1|[]]]; [done|].
    specialize (IH (h ++ d1)). destruct (for_of l _ (h ++ d1)) as [d2 r2]. cbn in *.
    intros pre e post err [(post1 & -> & ->)|(pre2 & -> & ->)]%split_app Hu.
    + by destruct (Hm pre e post1 err eq_refl Hu).
    + by eapply IH.
Qed.

(** X8.  A recipient lookup, a sender lookup or a permission resolution
    that throws ends the operation with that error, whatever the error,
    [Forbidden] included: these calls are outside the [try]. *)
Theorem failure_outside_boundary_aborts this data opts h pre e post err :
  (createOne C U this data opts h).1 = pre ++ e :: post →
  unguarded_failure e = Some err →
  post = [] ∧ (createOne C U this data opts h).2 = inl err.
Proof.
  rewrite createOne_run. pose proof (notify_mentions_run C U this data h) as Hrun.
  destruct (notify_mentions C U this data h) as [d res]. cbn in Hrun.
  inversion Hrun as [?|c0 Hc0 ?|c0 a0 err0 Hc0 ? ?|comment a sender d' r' Hc ? ? Hl]; subst; cbn.
  - intros Hsp Hu. destruct pre as [|? [|? ?]]; simplify_eq/=.
  - intros Hsp Hu. by destruct pre.
  - intros Hsp Hu. destruct pre as [|? [|? ?]]; simplify_eq/=. done.
  - pose proof (unguarded_for_of data comment (mentions_of comment) sender (mentions_of comment)
                  (h ++ [sender_lookup a (inr sender)])) as Hi.
    rewrite Hl in Hi. cbn in Hi. intros Hsp Hu.
    destruct res as [err'|[]]; cbn in Hsp.
    + destruct pre as [|? pre]; cbn in Hsp; injection Hsp as <- ->; [discriminate Hu|].
      by destruct (Hi pre e post err eq_refl Hu) as [-> [= ->]].
    + destruct pre as [|? pre]; cbn in Hsp; injection Hsp as <- Hsp; [discriminate Hu|].
      apply split_app in Hsp as [(post1 & -> & ->)|(pre2 & -> & Hsp)].
      * by destruct (Hi pre e post1 err eq_refl Hu).
      * destruct pre2 as [|? [|? ?]]; simplify_eq/=.
Qed.

Lemma enqueued_notify_mention_sublist data comment mentions sender m h :
  enqueued (notify_mention C U data comment mentions sender m h).1
  `sublist_of` [Js.substring_from 1 m].
Proof.
  unfold_turn. run; first [apply sublist_nil_l | reflexivity].
Qed.

Lemma enqueued_for_of_sublist data comment mentions sender l h :
  enqueued (for_of l (notify_mention C U data comment mentions sender) h).1
  `sublist_of` (Js.substring_from 1 <$> l).
Proof.
  revert h. induction l as [|m l IH]; intros h; [done|].
  rewrite for_of_cons.
  pose proof (enqueued_notify_mention_sublist data comment mentions sender m h) as Hm.
  destruct (notify_mention C U data comment mentions sender m h) as [d1 [err1|[]]];
    cbn [fst snd] in *.
  - by apply (sublist_inserts_r (Js.substring_from 1 <$> l)) in Hm.
  - specialize (IH (h ++ d1)). destruct (for_of l _ (h ++ d1)) as [d2 r2]. cbn [fst snd] in *.
    unfold enqueued in *. rewrite omap_app, fmap_cons.
    by apply (sublist_app _ [Js.substring_from 1 m] _ (Js.substring_from 1 <$> l)).
Qed.

Lemma enqueued_createOne_sublist this data opts h comment :
  comment_action data comment →
  enqueued (createOne C U this data opts h).1
  `sublist_of` (Js.substring_from 1 <$> mentions_of comment).
Proof.
  intros Hc. rewrite createOne_run.
  pose proof (notify_mentions_run C U this data h) as Hrun.
  destruct (notify_mentions C U this data h) as [d res]. cbn in Hrun.
  assert (enqueued d `sublist_of` (Js.substring_from 1 <$> mentions_of comment)) as Hd.
  { inversion Hrun as [?|c0 Hc0 ?|c0 a0 err0 Hc0 ? ?|c0 a s d' r' Hc0 ? ? Hl]; subst;
      try apply sublist_nil_l.
    assert (c0 = comment) as -> by by eapply comment_action_inj.
    cbn. change d' with (d', res).1. rewrite <-Hl. apply enqueued_for_of_sublist. }
  destruct res as [err|[]]; cbn; [done|].
  unfold enqueued in *. rewrite omap_app. cbn. by rewrite app_nil_r.
Qed.

(** X7.  No recipient is notified twice for one comment: the recipients of
    the notifications handed over are distinct and follow the order of the
    mentions. *)
Theorem one_notification_per_mention this data opts h :
  NoDup (enqueued (createOne C U this data opts h).1) ∧
  ∀ comment, comment_action data comment →
    enqueued (createOne C U this data opts h).1
    `sublist_of` (Js.substring_from 1 <$> mentions_of comment).
Proof.
  split; [|intros; by apply enqueued_createOne_sublist].
  destruct (field data "comment") as [| | | |comment] eqn:Hc.
  5: destruct (decide (field data "action" = Action_COMMENT)) as [Ha|Ha].
  5: { apply (sublist_NoDup _ (Js.substring_from 1 <$> mentions_of comment));
         [apply mention_identifiers_NoDup|by apply enqueued_createOne_sublist]. }
  all: rewrite createOne_run, notify_mentions_other_action;
       [by apply NoDup_nil|intros c [? ?]; congruence].
Qed.

Lemma resolved_notify_mention data comment mentions sender m h :
  resolved (notify_mention C U data comment mentions sender m h).1 = [Js.substring_from 1 m].
Proof. unfold_turn. run; reflexivity. Qed.

Lemma resolved_for_of data comment mentions sender l h :
  resolved (for_of l (notify_mention C U data comment mentions sender) h).1
  `prefix_of` (Js.substring_from 1 <$> l) ∧
  ((for_of l (notify_mention C U data comment mentions sender) h).2 = inr tt →
   resolved (for_of l (notify_mention C U data comment mentions sender) h).1
   = Js.substring_from 1 <$> l).
Proof.
  revert h. induction l as [|m l IH]; intros h; [done|].
  rewrite for_of_cons, fmap_cons.
  pose proof (resolved_notify_mention data comment mentions sender m h) as Hm.
  destruct (notify_mention C U data comment mentions sender m h) as [d1 [err1|[]]];
    cbn [fst snd] in *.
  - rewrite Hm. split; [|done]. by exists (Js.substring_from 1 <$> l).
  - destruct (IH (h ++ d1)) as [Hp He]. destruct (for_of l _ (h ++ d1)) as [d2 r2].
    cbn [fst snd] in *. unfold resolved in *. rewrite omap_app, Hm. split.
    + by apply (prefix_app [_]).
    + intros Hr. by rewrite He.
Qed.

(** X13.  The recipients are looked up in the order of the mentions, one
    after the other and none skipped: the identifiers looked up are a
    prefix of the identifiers of the mentions, and all of them when the
    operation returns. *)
Theorem mentions_resolved_in_order this data opts h comment :
  comment_action data comment →
  resolved (createOne C U this data opts h).1
  `prefix_of` (Js.substring_from 1 <$> mentions_of comment) ∧
  ∀ key, (createOne C U this data opts h).2 = inr key →
    resolved (createOne C U this data opts h).1 = Js.substring_from 1 <$> mentions_of comment.
Proof.
  intros Hc. rewrite createOne_run.
  pose proof (notify_mentions_run C U this data h) as Hrun.
  destruct (notify_mentions C U this data h) as [d res]. cbn in Hrun.
  inversion Hrun as [Hn|c0 Hc0 ?|c0 a0 err0 Hc0 ? ?|c0 a s d' r' Hc0 ? ? Hl]; subst.
  - by destruct (Hn comment).
  - split; [apply prefix_nil|done].
  - split; [|done]. unfold resolved, sender_lookup. cbn.
    destruct (acc_user a0); apply prefix_nil.
  - assert (c0 = comment) as -> by by eapply comment_action_inj.
    destruct (resolved_for_of data comment (mentions_of comment) s (mentions_of comment)
                (h ++ [sender_lookup a (inr s)])) as [Hp He].
    rewrite Hl in Hp, He. cbn [fst snd] in *.
    assert (resolved (sender_lookup a (inr s) :: d') = resolved d') as Hs.
    { unfold resolved, sender_lookup. cbn. by destruct (acc_user a). }
    destruct res as [err|[]]; cbn [fst snd].
    + rewrite Hs. split; [done|]. intros key [=].
    + assert (∀ d1 d2 : list Event, resolved (d1 ++ d2) = resolved d1 ++ resolved d2) as Happ
        by (intros; apply omap_app).
      rewrite Happ, Hs. cbn. rewrite app_nil_r. split; [done|]. intros _ _. by apply He.
Qed.

(** X11.  The sender of a notification is the [id] of the row returned by
    the sender lookup, the first event of the log; its subject ends with
    the collection of the comment when that is a string, and with
    [undefined] when the data have no collection. *)
Theorem notification_sender_and_subject this data opts h pre n r post :
  (createOne C U this data opts h).1 = pre ++ NotificationsCreateOne n r :: post →
  ∃ a row rest,
    accountability this = Some a ∧
    pre = UsersReadOne None (acc_user a) ["id"; "first_name"; "last_name"; "email"] (inr row)
          :: rest ∧
    sender n = id row ∧
    match data !! "collection" with
    | Some (JsStr name) => subject n = "Você foi mencionado em " +:+ name
    | None => subject n = "Você foi mencionado em undefined"
    | _ => True
    end.
Proof.
  intros (comment & a & row & pre' & user & perms & rows & _ & Ha & -> & ->)%createOne_provenance.
  eexists a, row, _. split; [done|]. split; [reflexivity|]. split; [done|].
  cbn. unfold field. by destruct (data !! "collection") as [[]|].
Qed.

End More.

(** * Runs on the two databases *)

Import Scenario.

Lemma notification_requires_recipient_read_access_witness :
  let C := newsroom desk never never in
  let data := comment_on_article ana_and_carla in
  let d := (createOne C utils chief data None []).1 in
  let n := notification_to carla ana_and_carla [ana; carla] in
  let brief := ["id"; "first_name"; "last_name"; "email"] in
  let full := ["id"; "first_name"; "last_name"; "email";
               "role.id"; "role.admin_access"; "role.app_access"] in
  d = take 9 d ++ NotificationsCreateOne n (inr (JsNum "9")) :: drop 10 d ∧
  (∃ pre' user perms fetch,
     take 9 d = pre' ++
       [ UsersReadOne None (Some (recipient n)) full (inr user);
         GetPermissions
           {| acc_user := Some (recipient n);
              acc_role := role user ≫= role_id;
              acc_admin := role user ≫= admin_access;
              acc_app := role user ≫= app_access;
              acc_permissions := None |}
           (inr perms);
         CheckAccess
           {| acc_user := Some (recipient n);
              acc_role := role user ≫= role_id;
              acc_admin := role user ≫= admin_access;
              acc_app := role user ≫= app_access;
              acc_permissions := Some perms |}
           "read"
           (default JsUndefined (data !! "collection"))
           (default JsUndefined (data !! "item"))
           (inr tt);
         fetch ] ∧
     collection n = default JsUndefined (data !! "collection") ∧
     item n = default JsUndefined (data !! "item")) ∧
  take 9 d =
    [ UsersReadOne None (Some author_id) brief (inr author);
      UsersReadOne None (Some ana_id) full (inr ana);
      GetPermissions (without_role ana_id None) (inr []);
      CheckAccess (without_role ana_id (Some [])) "read" (JsStr "articles") (JsNum "12")
        (inl (DirectusError Forbidden));
      LoggerWarn
        "User 11111111-1111-4111-8111-111111111111 doesn't have proper permissions to receive notification for this item.";
      UsersReadOne None (Some carla_id) full (inr carla);
      GetPermissions (as_editor carla_id None) (inr ["articles.read"]);
      CheckAccess (as_editor carla_id (Some ["articles.read"])) "read"
        (JsStr "articles") (JsNum "12") (inr tt);
      UsersReadByQuery (as_editor carla_id (Some ["articles.read"])) brief
        [ana_id; carla_id] (inr [ana; carla]) ] ∧
  enqueued d = [carla_id].
Proof.
  intros C data d n brief full.
  assert (d = take 9 d ++ NotificationsCreateOne n (inr (JsNum "9")) :: drop 10 d) as H
    by (vm_compute; reflexivity).
  split; [exact H|]. split; [|split; vm_compute; reflexivity].
  exact (notification_requires_recipient_read_access C utils chief data None []
           (take 9 d) n (inr (JsNum "9")) (drop 10 d) H).
Defined.



Lemma unknown_lookup_fails h :
  ∃ err, users_readOne (services everyone [ana_id] (fun _ => everyone)) h None
           (Some (Js.substring_from 1 ("@" +:+ nobody_id))) recipient_fields = inl err.
Proof. eexists. vm_compute. reflexivity. Defined.

Lemma unknown_mention_enqueues_nothing_counterexample :
  ¬ unknown_mention_enqueues_nothing (services everyone [ana_id] (fun _ => everyone)) utils
      (signed_in author_id) (comment_on_article ana_and_nobody) None [].
Proof.
  intros H.
  destruct (H ana_and_nobody ("@" +:+ nobody_id)) as [_ He].
  - split; vm_compute; reflexivity.
  - assert (mentions_of ana_and_nobody = ["@" +:+ ana_id; "@" +:+ nobody_id]) as ->
      by (vm_compute; reflexivity).
    apply list_elem_of_further, list_elem_of_here.
  - apply unknown_lookup_fails.
  - vm_compute in He. discriminate He.
Qed.

Lemma unknown_mention_aborts_witness :
  let C := services everyone [ana_id] (fun _ => everyone) in
  let data := comment_on_article ana_and_nobody in
  comment_action data ana_and_nobody ∧
  mentions_of ana_and_nobody = ["@" +:+ ana_id] ++ ("@" +:+ nobody_id) :: [] ∧
  ∃ d err,
    createOne C utils (signed_in author_id) data None [] = (d, inl err) ∧
    creations d = [] ∧
    ∀ u, u ∈ enqueued d → u ∈ Js.substring_from 1 <$> ["@" +:+ ana_id].
Proof.
  intros C data.
  assert (comment_action data ana_and_nobody) as Hc by (split; vm_compute; reflexivity).
  assert (mentions_of ana_and_nobody = ["@" +:+ ana_id] ++ ("@" +:+ nobody_id) :: []) as Hm
    by (vm_compute; reflexivity).
  split; [exact Hc|]. split; [exact Hm|].
  exact (unknown_mention_aborts C utils (signed_in author_id) data None [] ana_and_nobody
           ["@" +:+ ana_id] ("@" +:+ nobody_id) [] Hc Hm unknown_lookup_fails).
Defined.

Lemma rendered_once_before_checks_counterexample :
  let C := services everyone [ana_id; bob_id] only_ana_sees in
  let d := (createOne C utils (signed_in author_id) (comment_on_article ana_and_bob) None []).1 in
  ¬ rendered_once_before_checks utils d ∧
  fetches d = [Some ana_id; Some bob_id] ∧
  fetches (take 4 d) = [] ∧
  d !! 3 = Some (CheckAccess ana_accountability "read" (JsStr "articles") (JsNum "12") (inr tt)) ∧
  render_comment is_valid_uuid (user_previews utils (only_ana_sees ana_id))
    (mentions_of ana_and_bob) ana_and_bob
  ≠ render_comment is_valid_uuid (user_previews utils (only_ana_sees bob_id))
      (mentions_of ana_and_bob) ana_and_bob.
Proof.
  intros C d. split; [|split; [|split; [|split]]].
  - intros [Hone _]. vm_compute in Hone. discriminate Hone.
  - vm_compute. reflexivity.
  - vm_compute. reflexivity.
  - vm_compute. reflexivity.
  - vm_compute. discriminate.
Qed.

Lemma notification_body_rendered_per_recipient_witness :
  let C := newsroom desk never never in
  let data := comment_on_article ana_and_carla in
  let d := (createOne C utils chief data None []).1 in
  let n := notification_to carla ana_and_carla [ana; carla] in
  let brief := ["id"; "first_name"; "last_name"; "email"] in
  let full := ["id"; "first_name"; "last_name"; "email";
               "role.id"; "role.admin_access"; "role.app_access"] in
  let nl := String "010" EmptyString in
  let quote := String "034" EmptyString in
  d = take 9 d ++ NotificationsCreateOne n (inr (JsNum "9")) :: drop 10 d ∧
  (∃ comment a sender pre' user perms rows,
     let coll := default JsUndefined (data !! "collection") in
     let pk := default JsUndefined (data !! "item") in
     let acc :=
       {| acc_user := Some (recipient n);
          acc_role := role user ≫= role_id;
          acc_admin := role user ≫= admin_access;
          acc_app := role user ≫= app_access;
          acc_permissions := Some perms |} in
     let body :=
       render_comment (isValidUuid utils) (user_previews utils rows)
         (mentions_of comment) comment in
     data !! "comment" = Some (JsStr comment) ∧
     accountability chief = Some a ∧
     take 9 d =
       UsersReadOne None (acc_user a) brief (inr sender) :: pre' ++
       [ UsersReadOne None (Some (recipient n)) full (inr user);
         GetPermissions
           {| acc_user := Some (recipient n);
              acc_role := role user ≫= role_id;
              acc_admin := role user ≫= admin_access;
              acc_app := role user ≫= app_access;
              acc_permissions := None |}
           (inr perms);
         CheckAccess acc "read" coll pk (inr tt);
         UsersReadByQuery acc brief (Js.substring_from 1 <$> mentions_of comment)
           (inr rows) ] ∧
     message n =
       nl +:+ "Olá " +:+ userName utils user +:+ "," +:+ nl +:+
       nl +:+ userName utils sender +:+ " mencionou você em um comentário:" +:+ nl +:+
       nl +:+ body +:+ nl +:+
       nl +:+ "<a href=" +:+ quote +:+ admin_content_href utils coll pk +:+ quote +:+
         ">Clique aqui para ver.</a>" +:+ nl) ∧
  drop 5 (take 9 d) =
    [ UsersReadOne None (Some carla_id) full (inr carla);
      GetPermissions (as_editor carla_id None) (inr ["articles.read"]);
      CheckAccess (as_editor carla_id (Some ["articles.read"])) "read"
        (JsStr "articles") (JsNum "12") (inr tt);
      UsersReadByQuery (as_editor carla_id (Some ["articles.read"])) brief
        [ana_id; carla_id] (inr [ana; carla]) ] ∧
  message n =
    nl +:+ "Olá Carla Reis," +:+ nl +:+
    nl +:+ "Eve Moss mencionou você em um comentário:" +:+ nl +:+
    nl +:+ "> see <em>Ana Silva</em> and <em>Carla Reis</em>" +:+ nl +:+
    nl +:+ "<a href=" +:+ quote +:+ "http://localhost:8055/admin/content/articles/12" +:+
      quote +:+ ">Clique aqui para ver.</a>" +:+ nl.
Proof.
  intros C data d n brief full nl quote.
  assert (d = take 9 d ++ NotificationsCreateOne n (inr (JsNum "9")) :: drop 10 d) as H
    by (vm_compute; reflexivity).
  split; [exact H|]. split; [|split; vm_compute; reflexivity].
  exact (notification_body_rendered_per_recipient C utils chief data None []
           (take 9 d) n (inr (JsNum "9")) (drop 10 d) H).
Defined.

Lemma only_creates_record_counterexample :
  ¬ only_creates_record (services everyone [] (fun _ => everyone)) utils
      anonymous (comment_on_article no_mention) None [].
Proof.
  intros H. destruct (H no_mention) as [r Hr].
  - split; vm_compute; reflexivity.
  - vm_compute. reflexivity.
  - vm_compute in Hr. discriminate Hr.
Qed.

Lemma no_mention_has_no_token m i : mention_token m → ¬ occurs_at m no_mention i.
Proof.
  intros Hm Ho.
  assert (m ∈ mentions_of no_mention) as Hin by (apply elem_of_mentions_of; eauto).
  vm_compute in Hin. by apply elem_of_nil in Hin.
Defined.

Lemma no_mentions_sender_lookup_then_create_witness :
  let C := services everyone [] (fun _ => everyone) in
  let data := comment_on_article no_mention in
  comment_action data no_mention ∧
  mentions_of no_mention = [] ∧
  createOne C utils (signed_in author_id) data None [] =
    ([sender_lookup {| acc_user := Some author_id; acc_role := None; acc_admin := None;
                       acc_app := None; acc_permissions := None |} (inr author);
      ItemsCreateOne data None (inr (JsNum "1"))], inr (JsNum "1")).
Proof.
  intros C data.
  assert (comment_action data no_mention) as Hc by (split; vm_compute; reflexivity).
  split; [exact Hc|].
  exact (no_mentions_sender_lookup_then_create C utils (signed_in author_id) data None []
           no_mention Hc no_mention_has_no_token).
Defined.

Lemma forbidden_inside_boundary_skips_recipient_witness :
  let forbidden := DirectusError Forbidden in
  let C := newsroom desk (fails_for carla_id forbidden) (fails_for dan_id forbidden) in
  let C' := newsroom desk (fails_for carla_id lost) never in
  let data := comment_on_article ana_carla_dan in
  let run := createOne C utils chief data None [] in
  let run' := createOne C' utils chief data None [] in
  let brief := ["id"; "first_name"; "last_name"; "email"] in
  let full := ["id"; "first_name"; "last_name"; "email";
               "role.id"; "role.admin_access"; "role.app_access"] in
  let permitted := Some ["articles.read"] in
  let check :=
    CheckAccess (without_role ana_id (Some [])) "read" (JsStr "articles") (JsNum "12")
      (inl forbidden) in
  let fetch :=
    UsersReadByQuery (as_editor carla_id permitted) brief [ana_id; carla_id; dan_id] in
  let deliver :=
    NotificationsCreateOne (notification_to dan ana_carla_dan [ana; carla; dan])
      (inl forbidden) in
  (run.1 = take 3 run.1 ++ check :: drop 4 run.1 ∧
   run.1 = take 8 run.1 ++ fetch (inl forbidden) :: drop 9 run.1 ∧
   run.1 = take 14 run.1 ++ deliver :: drop 15 run.1 ∧
   run'.1 = take 8 run'.1 ++ fetch (inl lost) :: drop 9 run'.1) ∧
  (boundary_failure check = Some (ana_id, forbidden) ∧
   boundary_failure (fetch (inl forbidden)) = Some (carla_id, forbidden) ∧
   boundary_failure deliver = Some (dan_id, forbidden) ∧
   boundary_failure (fetch (inl lost)) = Some (carla_id, lost)) ∧
  (∃ comment before m after,
     data !! "comment" = Some (JsStr comment) ∧
     mentions_of comment = before ++ m :: after ∧
     ana_id = Js.substring_from 1 m ∧
     ∃ rest,
       drop 4 run.1 =
         LoggerWarn ("User " +:+ ana_id +:+
           " doesn't have proper permissions to receive notification for this item.")
         :: rest ∧
       match after with
       | m' :: _ =>
           ∃ res rest',
             rest = UsersReadOne None (Some (Js.substring_from 1 m')) full res :: rest'
       | [] => rest = [ItemsCreateOne data None run.2]
       end) ∧
  (∃ comment before m after,
     data !! "comment" = Some (JsStr comment) ∧
     mentions_of comment = before ++ m :: after ∧
     carla_id = Js.substring_from 1 m ∧
     ∃ rest,
       drop 9 run.1 =
         LoggerWarn ("User " +:+ carla_id +:+
           " doesn't have proper permissions to receive notification for this item.")
         :: rest ∧
       match after with
       | m' :: _ =>
           ∃ res rest',
             rest = UsersReadOne None (Some (Js.substring_from 1 m')) full res :: rest'
       | [] => rest = [ItemsCreateOne data None run.2]
       end) ∧
  (∃ comment before m after,
     data !! "comment" = Some (JsStr comment) ∧
     mentions_of comment = before ++ m :: after ∧
     dan_id = Js.substring_from 1 m ∧
     ∃ rest,
       drop 15 run.1 =
         LoggerWarn ("User " +:+ dan_id +:+
           " doesn't have proper permissions to receive notification for this item.")
         :: rest ∧
       match after with
       | m' :: _ =>
           ∃ res rest',
             rest = UsersReadOne None (Some (Js.substring_from 1 m')) full res :: rest'
       | [] => rest = [ItemsCreateOne data None run.2]
       end) ∧
  (∃ comment before m after,
     data !! "comment" = Some (JsStr comment) ∧
     mentions_of comment = before ++ m :: after ∧
     carla_id = Js.substring_from 1 m ∧
     drop 9 run'.1 = [] ∧ run'.2 = inl lost) ∧
  drop 3 run.1 =
    [ check;
      LoggerWarn
        "User 11111111-1111-4111-8111-111111111111 doesn't have proper permissions to receive notification for this item.";
      UsersReadOne None (Some carla_id) full (inr carla);
      GetPermissions (as_editor carla_id None) (inr ["articles.read"]);
      CheckAccess (as_editor carla_id permitted) "read" (JsStr "articles") (JsNum "12")
        (inr tt);
      fetch (inl forbidden);
      LoggerWarn
        "User 55555555-5555-4555-8555-555555555555 doesn't have proper permissions to receive notification for this item.";
      UsersReadOne None (Some dan_id) full (inr dan);
      GetPermissions (as_editor dan_id None) (inr ["articles.read"]);
      CheckAccess (as_editor dan_id permitted) "read" (JsStr "articles") (JsNum "12")
        (inr tt);
      UsersReadByQuery (as_editor dan_id permitted) brief [ana_id; carla_id; dan_id]
        (inr [ana; carla; dan]);
      deliver;
      LoggerWarn
        "User 66666666-6666-4666-9666-666666666666 doesn't have proper permissions to receive notification for this item.";
      ItemsCreateOne data None (inr (JsNum "16")) ] ∧
  run.2 = inr (JsNum "16") ∧
  enqueued run'.1 = [] ∧ creations run'.1 = [].
Proof.
  intros forbidden C C' data run run' brief full permitted check fetch deliver.
  assert (run.1 = take 3 run.1 ++ check :: drop 4 run.1) as H1 by (vm_compute; reflexivity).
  assert (run.1 = take 8 run.1 ++ fetch (inl forbidden) :: drop 9 run.1) as H2
    by (vm_compute; reflexivity).
  assert (run.1 = take 14 run.1 ++ deliver :: drop 15 run.1) as H3
    by (vm_compute; reflexivity).
  assert (run'.1 = take 8 run'.1 ++ fetch (inl lost) :: drop 9 run'.1) as H4
    by (vm_compute; reflexivity).
  split; [exact (conj H1 (conj H2 (conj H3 H4)))|].
  split; [repeat split|].
  split; [|split; [|split; [|split]]].
  - exact (forbidden_inside_boundary_skips_recipient C utils chief data None []
             (take 3 run.1) check (drop 4 run.1) ana_id forbidden H1 eq_refl).
  - exact (forbidden_inside_boundary_skips_recipient C utils chief data None []
             (take 8 run.1) (fetch (inl forbidden)) (drop 9 run.1) carla_id forbidden
             H2 eq_refl).
  - exact (forbidden_inside_boundary_skips_recipient C utils chief data None []
             (take 14 run.1) deliver (drop 15 run.1) dan_id forbidden H3 eq_refl).
  - exact (forbidden_inside_boundary_skips_recipient C' utils chief data None []
             (take 8 run'.1) (fetch (inl lost)) (drop 9 run'.1) carla_id lost H4 eq_refl).
  - repeat split; vm_compute; reflexivity.
Defined.



(** C7.  A display name that holds [$'] is not inserted as it is: each
    occurrence of the mention receives the text that follows it in the
    comment, so the two occurrences are replaced differently and the
    mention itself shows again in the result. *)
Theorem display_name_with_dollar_pattern :
  let previews := user_previews utils [dollar] in
  previews !! ana_id = Some "<em>$' S</em>" ∧
  mentions_of ana_twice = ["@" +:+ ana_id] ∧
  render_comment is_valid_uuid previews (mentions_of ana_twice) ana_twice =
    "> <em> and @11111111-1111-4111-8111-111111111111 S</em> and <em> S</em>" ∧
  render_literal is_valid_uuid previews (mentions_of ana_twice) ana_twice =
    "> <em>$' S</em> and <em>$' S</em>".
Proof. vm_compute. repeat split; reflexivity. Qed.

Lemma createOne_other_action_witness :
  let C := services everyone [] (fun _ => everyone) in
  (∀ comment, ¬ comment_action new_article comment) ∧
  createOne C utils anonymous new_article None [] =
  ([ItemsCreateOne new_article None (inr (JsNum "0"))], inr (JsNum "0")).
Proof.
  intros C.
  assert (∀ comment, ¬ comment_action new_article comment) as H.
  { intros comment [Ha _]. vm_compute in Ha. discriminate Ha. }
  split; [exact H|].
  exact (createOne_other_action C utils anonymous new_article None [] H).
Defined.

Lemma render_comment_plain_witness :
  let previews := user_previews utils [ana; bob] in
  (∀ m, m ∈ mentions_of ana_and_bob →
     "$"%char ∉ Js.chars (default "@Unknown User" (previews !! Js.substring_from 1 m))) ∧
  render_comment is_valid_uuid previews (mentions_of ana_and_bob) ana_and_bob =
  "> ping <em>Ana Silva</em> and <em>Bob Stone</em> re item".
Proof.
  intros previews.
  assert (∀ m, m ∈ mentions_of ana_and_bob →
     "$"%char ∉ Js.chars (default "@Unknown User" (previews !! Js.substring_from 1 m))) as H.
  { intros m Hm.
    assert (mentions_of ana_and_bob = ["@" +:+ ana_id; "@" +:+ bob_id]) as Hl
      by (vm_compute; reflexivity).
    rewrite Hl in Hm.
    repeat (apply elem_of_cons in Hm as [->|Hm];
            [apply (bool_decide_unpack _); vm_compute; exact I|]).
    by apply elem_of_nil in Hm. }
  split; [exact H|].
  exact (render_comment_plain is_valid_uuid previews (mentions_of ana_and_bob) ana_and_bob H).
Defined.

Lemma bob_mention_token : mention_token ("@" +:+ bob_id).
Proof.
  apply usersRegExp_spec.
  assert (Regex.exec_at Regex.usersRegExp ("@" +:+ bob_id) = Some ("@" +:+ bob_id)) as H
    by (vm_compute; reflexivity).
  by apply exec_at_spec in H as [H _].
Defined.

Lemma replace_mention_absent_witness :
  (∀ i, ¬ occurs_at ("@" +:+ bob_id) no_mention i) ∧
  replace_mention ("@" +:+ bob_id) "<em>Bob Stone</em>" no_mention = no_mention.
Proof.
  assert (∀ i, ¬ occurs_at ("@" +:+ bob_id) no_mention i) as H
    by (intros i; apply no_mention_has_no_token, bob_mention_token).
  split; [exact H|].
  exact (replace_mention_absent ("@" +:+ bob_id) "<em>Bob Stone</em>" no_mention H).
Defined.

Lemma substitute_mentions_valid_only_witness :
  let all_but_ana := fun uuid => bool_decide (uuid ≠ ana_id) in
  filter (fun mention => all_but_ana (Js.substring_from 1 mention) = true)
    (mentions_of ana_and_bob) = ["@" +:+ bob_id] ∧
  substitute_mentions all_but_ana (user_previews utils everyone)
    (mentions_of ana_and_bob) ana_and_bob =
  "ping @11111111-1111-4111-8111-111111111111 and <em>Bob Stone</em> re item".
Proof.
  intros all_but_ana. split; [vm_compute; reflexivity|].
  refine (eq_trans (substitute_mentions_valid_only all_but_ana (user_previews utils everyone)
                      (mentions_of ana_and_bob) ana_and_bob) _).
  vm_compute. reflexivity.
Defined.

Lemma mention_sigil_and_identifier_witness :
  "@" +:+ ana_id ∈ mentions_of ana_twice ∧
  "@" +:+ ana_id = "@" +:+ Js.substring_from 1 ("@" +:+ ana_id) ∧
  String.length ("@" +:+ ana_id) = 37 ∧
  String.length (Js.substring_from 1 ("@" +:+ ana_id)) = 36.
Proof.
  assert ("@" +:+ ana_id ∈ mentions_of ana_twice) as H.
  { assert (mentions_of ana_twice = ["@" +:+ ana_id]) as -> by (vm_compute; reflexivity).
    apply list_elem_of_here. }
  split; [exact H|].
  exact (mention_sigil_and_identifier ana_twice ("@" +:+ ana_id) H).
Defined.

Lemma failure_outside_boundary_aborts_witness :
  let C := services everyone [ana_id] (fun _ => everyone) in
  let run := createOne C utils (signed_in author_id) (comment_on_article ana_and_nobody) None [] in
  let e := UsersReadOne None (Some nobody_id) recipient_fields (inl not_found) in
  run.1 = take 6 run.1 ++ e :: drop 7 run.1 ∧
  unguarded_failure e = Some not_found ∧
  drop 7 run.1 = [] ∧ run.2 = inl not_found.
Proof.
  intros C run e.
  assert (run.1 = take 6 run.1 ++ e :: drop 7 run.1) as H by (vm_compute; reflexivity).
  split; [exact H|]. split; [reflexivity|].
  exact (failure_outside_boundary_aborts C utils (signed_in author_id)
           (comment_on_article ana_and_nobody) None [] (take 6 run.1) e (drop 7 run.1)
           not_found H eq_refl).
Defined.

Lemma warning_only_after_forbidden_witness :
  let C := services everyone [ana_id] (fun _ => everyone) in
  let d := (createOne C utils (signed_in author_id) (comment_on_article ana_and_bob) None []).1 in
  let msg :=
    "User 22222222-2222-4222-9222-222222222222 doesn't have proper permissions to receive notification for this item." in
  d = take 9 d ++ LoggerWarn msg :: drop 10 d ∧
  (∃ pre' e uid,
     take 9 d = pre' ++ [e] ∧
     boundary_failure e = Some (uid, DirectusError Forbidden) ∧
     msg = "User " +:+ uid +:+
           " doesn't have proper permissions to receive notification for this item.") ∧
  d !! 8 = Some (CheckAccess bob_accountability "read" (JsStr "articles") (JsNum "12")
                   (inl (DirectusError Forbidden))) ∧
  warnings d = [msg].
Proof.
  intros C d msg.
  assert (d = take 9 d ++ LoggerWarn msg :: drop 10 d) as H by (vm_compute; reflexivity).
  split; [exact H|]. split; [|split; vm_compute; reflexivity].
  exact (warning_only_after_forbidden C utils (signed_in author_id)
           (comment_on_article ana_and_bob) None [] (take 9 d) msg (drop 10 d) H).
Defined.

Lemma profiles_fetched_after_access_check_witness :
  let C := services everyone [ana_id] (fun _ => everyone) in
  let data := comment_on_article ana_and_bob in
  let d := (createOne C utils (signed_in author_id) data None []).1 in
  let e := UsersReadByQuery ana_accountability sender_fields [ana_id; bob_id] (inr [ana; bob]) in
  d = take 4 d ++ e :: drop 5 d ∧
  ∃ pre',
    take 4 d = pre' ++
      [CheckAccess ana_accountability "read" (field data "collection") (field data "item")
         (inr tt)].
Proof.
  intros C data d e.
  assert (d = take 4 d ++ e :: drop 5 d) as H by (vm_compute; reflexivity).
  split; [exact H|].
  exact (profiles_fetched_after_access_check C utils (signed_in author_id) data None []
           (take 4 d) ana_accountability sender_fields [ana_id; bob_id] (inr [ana; bob])
           (drop 5 d) H).
Defined.

Lemma mentions_resolved_in_order_witness :
  let C := services everyone [ana_id] (fun _ => everyone) in
  let data := comment_on_article ana_and_bob in
  let run := createOne C utils (signed_in author_id) data None [] in
  comment_action data ana_and_bob ∧
  resolved run.1 `prefix_of` (Js.substring_from 1 <$> mentions_of ana_and_bob) ∧
  ∀ key, run.2 = inr key → resolved run.1 = Js.substring_from 1 <$> mentions_of ana_and_bob.
Proof.
  intros C data run.
  assert (comment_action data ana_and_bob) as Hc by (split; vm_compute; reflexivity).
  split; [exact Hc|].
  exact (mentions_resolved_in_order C utils (signed_in author_id) data None [] ana_and_bob Hc).
Defined.

Lemma notification_sender_and_subject_witness :
  let C := services everyone [ana_id] (fun _ => everyone) in
  let data := comment_on_article ana_and_bob in
  let d := (createOne C utils (signed_in author_id) data None []).1 in
  let n := ana_notification ana_and_bob [ana; bob] in
  d = take 5 d ++ NotificationsCreateOne n (inr (JsNum "5")) :: drop 6 d ∧
  (∃ a row rest,
     accountability (signed_in author_id) = Some a ∧
     take 5 d =
       UsersReadOne None (acc_user a) ["id"; "first_name"; "last_name"; "email"] (inr row)
       :: rest ∧
     sender n = id row ∧
     subject n = "Você foi mencionado em " +:+ "articles") ∧
  d !! 0 = Some (UsersReadOne None (Some author_id) ["id"; "first_name"; "last_name"; "email"]
                   (inr author)) ∧
  sender n = "44444444-4444-4444-b444-444444444444" ∧
  subject n = "Você foi mencionado em articles".
Proof.
  intros C data d n.
  assert (d = take 5 d ++ NotificationsCreateOne n (inr (JsNum "5")) :: drop 6 d) as H
    by (vm_compute; reflexivity).
  split; [exact H|]. split; [|repeat split; vm_compute; reflexivity].
  exact (notification_sender_and_subject C utils (signed_in author_id) data None []
           (take 5 d) n (inr (JsNum "5")) (drop 6 d) H).
Defined.

Lemma exec_at_token m :
  Regex.exec_at Regex.usersRegExp m = Some m → mention_token m.
Proof. intros [H _]%exec_at_spec. by apply usersRegExp_spec. Defined.

Lemma ana_and_bob_tame m :
  m ∈ mentions_of ana_and_bob →
  mention_token m ∧
  is_valid_uuid (Js.substring_from 1 m) = true ∧
  ("$"%char ∉ Js.chars (default "@Unknown User"
                          (user_previews utils [ana] !! Js.substring_from 1 m))) ∧
  tame (default "@Unknown User" (user_previews utils [ana] !! Js.substring_from 1 m)).
Proof.
  intros Hm.
  assert (mentions_of ana_and_bob = ["@" +:+ ana_id; "@" +:+ bob_id]) as Hl
    by (vm_compute; reflexivity).
  rewrite Hl in Hm.
  apply elem_of_cons in Hm as [->|Hm]; [|apply elem_of_cons in Hm as [->|Hm]].
  - split; [apply exec_at_token; vm_compute; reflexivity|].
    split; [vm_compute; reflexivity|].
    split; [apply (bool_decide_unpack _); vm_compute; exact I|].
    right. exists "em>Ana Silva</em>". split; [vm_compute; reflexivity|].
    apply (bool_decide_unpack _). vm_compute. exact I.
  - split; [apply exec_at_token; vm_compute; reflexivity|].
    split; [vm_compute; reflexivity|].
    split; [apply (bool_decide_unpack _); vm_compute; exact I|].
    left. vm_compute. reflexivity.
  - by apply elem_of_nil in Hm.
Defined.

Lemma no_mention_left_witness :
  "@" +:+ bob_id ∈ mentions_of ana_and_bob ∧
  ¬ occurs_at ("@" +:+ bob_id)
      (render_comment is_valid_uuid (user_previews utils [ana])
         (mentions_of ana_and_bob) ana_and_bob) 31.
Proof.
  assert ("@" +:+ bob_id ∈ mentions_of ana_and_bob) as H.
  { assert (mentions_of ana_and_bob = ["@" +:+ ana_id; "@" +:+ bob_id]) as ->
      by (vm_compute; reflexivity).
    apply list_elem_of_further, list_elem_of_here. }
  split; [exact H|].
  exact (no_mention_left is_valid_uuid (user_previews utils [ana]) (mentions_of ana_and_bob)
           ana_and_bob ("@" +:+ bob_id) 31 ana_and_bob_tame H).
Defined.
